(** * Q-mlearning: clustering as max-cut

    Shallow embedding of the two computational cells of the notebook
    [10_Discrete_Optimization_and_Unsupervised_Learning-qiskit.ipynb]:

    - cell 2, the pairwise distance (Gram) matrix [w] of the points [data];
    - cell 6, the couplings [J], the on-site fields [h] and the
      [dimod.BinaryQuadraticModel] built from [w].

    Numbers: the notebook computes in numpy [float64].  The cells are
    embedded twice.  The loops are written once for any number type
    (section [Arithmetic]); what is proved there holds of the notebook as
    it runs.  The definitions over the real numbers [R] of the Standard
    Library idealise float arithmetic as exact arithmetic (no rounding,
    no overflow, no NaN); statements over them are about the weights as
    real numbers.  Module [F64] instantiates the distance loop with
    binary64 arithmetic, to evaluate the cell on given floats.
    Containers: numpy arrays are lists (of lists), indexed with stdpp's
    lookup; an index out of range raises [IndexError] as in Python.
    Python dictionaries are stdpp [gmap]s. *)

From Stdlib Require Import Floats.
From Stdlib Require Import Reals Lra ZArith String.
From stdpp Require Import base option list gmap.

Open Scope R_scope.

(** ** Exceptions and the result monad *)

(** The only exceptions the two cells can raise themselves: indexing an
    array out of bounds, and reading a global that no cell has assigned. *)
Inductive exception : Type :=
  | IndexError
  | NameError.

Inductive result (A : Type) : Type :=
  | Raise (e : exception)
  | Return (a : A).
Arguments Raise {A} e.
Arguments Return {A} a.

#[global] Instance result_ret : MRet result := fun A a => Return a.
#[global] Instance result_bind : MBind result := fun A B f r =>
  match r with
  | Raise e => Raise e
  | Return a => f a
  end.

#[global] Instance result_fmap : FMap result := fun A B f r =>
  match r with
  | Raise e => Raise e
  | Return a => Return (f a)
  end.

(** A Python [for x in xs: body] over a state [S] that the body updates;
    an exception in the body leaves the loop. *)
Fixpoint for_each {I S : Type} (body : I -> S -> result S)
    (xs : list I) (s : S) : result S :=
  match xs with
  | [] => Return s
  | x :: xs' => s' ← body x s; for_each body xs' s'
  end.

(** [range(a, b)] *)
Definition range (a b : nat) : list nat := seq a (b - a).

(** [itertools.product(xs, ys)]: all pairs, the right index running fastest. *)
Definition product {A B : Type} (xs : list A) (ys : list B) : list (A * B) :=
  x ← xs; y ← ys; [(x, y)].

(** ** numpy arrays *)

(** A one-dimensional array, and a two-dimensional array as the list of
    its rows.  A numpy array of shape [(n, m)] has [n] rows of [m]
    entries each: [shape n m a]. *)
Abbreviation vector := (list R).
Abbreviation matrix := (list (list R)).

Definition shape (n m : nat) (a : matrix) : Prop :=
  length a = n /\ Forall (fun row => length row = m) a.

(** [a[i]] *)
Definition getitem {A : Type} (a : list A) (i : nat) : result A :=
  match a !! i with
  | Some x => Return x
  | None => Raise IndexError
  end.

(** [a[i, j]] *)
Definition getitem2 (a : matrix) (i j : nat) : result R :=
  row ← getitem a i; getitem row j.

(** [a[i, j] = v] *)
Definition setitem2 (a : matrix) (i j : nat) (v : R) : result matrix :=
  match a !! i with
  | Some row =>
      match row !! j with
      | Some _ => Return (<[i := <[j := v]> row]> a)
      | None => Raise IndexError
      end
  | None => Raise IndexError
  end.

(** [np.zeros((n, m))] *)
Definition zeros (n m : nat) : matrix := replicate n (replicate m 0).

(** [x - y] on two rows of one array (they have the same length), in
    exact arithmetic. *)
Definition sub (x y : vector) : vector := zip_with Rminus x y.

Definition sumR (xs : list R) : R := foldr Rplus 0 xs.

(** [x.dot(y)] *)
Definition dot (x y : vector) : R := sumR (zip_with Rmult x y).

(** [np.linalg.norm(x)] on a one-dimensional real array: the 2-norm,
    [sqrt(x.dot(x))], in exact arithmetic (the number that the float64
    computation of numpy approximates; [F64.norm] is that computation). *)
Definition norm (x : vector) : R := sqrt (dot x x).

(** ** Cell 1: the two classes of points

<<
n_instances = 4
class_1 = np.random.rand(n_instances//2, 3)/5
class_2 = (0.6, 0.1, 0.05) + np.random.rand(n_instances//2, 3)/5
data = np.concatenate((class_1, class_2))
colors = ["red"] * (n_instances//2) + ["green"] * (n_instances//2)
>>

    [np.random.rand(d0, d1)] returns an array of shape [(d0, d1)] of
    samples of the uniform distribution over [[0, 1)].  The two arrays
    drawn are arguments of the model: what is proved of the cell holds
    for every outcome of the draws. *)
Definition uniform_samples (d0 d1 : nat) (a : matrix) : Prop :=
  shape d0 d1 a /\ Forall (Forall (fun x => 0 <= x < 1)) a.

(** [a / c], entry by entry. *)
Definition divide (a : matrix) (c : R) : matrix :=
  (fun row : vector => (fun x => x / c) <$> row) <$> a.

(** [t + a], the tuple [t] added to every row of [a]. *)
Definition broadcast_add (t : vector) (a : matrix) : matrix :=
  zip_with Rplus t <$> a.

(** [np.concatenate((a, b))] along the first axis. *)
Definition concatenate (a b : matrix) : matrix := a ++ b.

Definition class_1 (rand_1 : matrix) : matrix := divide rand_1 5.

Definition class_2 (rand_2 : matrix) : matrix :=
  broadcast_add [0.6; 0.1; 0.05] (divide rand_2 5).

Definition generated_data (rand_1 rand_2 : matrix) : matrix :=
  concatenate (class_1 rand_1) (class_2 rand_2).

Definition colors (n_instances : nat) : list string :=
  replicate (n_instances / 2) "red"%string
  ++ replicate (n_instances / 2) "green"%string.

(** ** Cell 2: the distance matrix

<<
w = np.zeros((n_instances, n_instances))
for i, j in itertools.product( *[range(n_instances)] * 2):
    w[i, j] = np.linalg.norm(data[i]-data[j])
>> *)
Definition distance_loop_body (data : matrix) (ij : nat * nat) (w : matrix)
    : result matrix :=
  let '(i, j) := ij in
  di ← getitem data i;
  dj ← getitem data j;
  setitem2 w i j (norm (sub di dj)).

Definition distance_matrix_builder (n_instances : nat) (data : matrix)
    : result matrix :=
  for_each (distance_loop_body data)
    (product (range 0 n_instances) (range 0 n_instances))
    (zeros n_instances n_instances).

(** ** Cell 2 in any arithmetic

    The loop of cell 2 touches the numbers only through [np.zeros] and
    through [np.linalg.norm(data[i]-data[j])].  Here it is once more,
    over any number type [A] with its zero and with whatever function
    [norm_sub p q] the numeric library computes for
    [np.linalg.norm(p - q)]. *)
Section Arithmetic.

Context {A : Type} (zero : A) (norm_sub : list A -> list A -> A).



Definition setitem2_in (a : list (list A)) (i j : nat) (v : A)
    : result (list (list A)) :=
  match a !! i with
  | Some row =>
      match row !! j with
      | Some _ => Return (<[i := <[j := v]> row]> a)
      | None => Raise IndexError
      end
  | None => Raise IndexError
  end.

Definition zeros_in (n m : nat) : list (list A) :=
  replicate n (replicate m zero).

Definition distance_loop_body_in (data : list (list A)) (ij : nat * nat)
    (w : list (list A)) : result (list (list A)) :=
  let '(i, j) := ij in
  di ← getitem data i;
  dj ← getitem data j;
  setitem2_in w i j (norm_sub di dj).

Definition distance_matrix_builder_in (n_instances : nat)
    (data : list (list A)) : result (list (list A)) :=
  for_each (distance_loop_body_in data)
    (product (range 0 n_instances) (range 0 n_instances))
    (zeros_in n_instances n_instances).

End Arithmetic.

(** ** Cell 2 in binary64

    [data[i]-data[j]] subtracts entry by entry, [np.linalg.norm] takes
    the square root of [x.dot(x)].  The order in which the library adds
    up the products of [dot] is not fixed by the notebook; they are added
    from left to right here, and [F64] is only used on an input where
    every order gives the same result. *)
Module F64.

Definition sub (x y : list float) : list float := zip_with PrimFloat.sub x y.

Definition dot (x y : list float) : float :=
  foldl PrimFloat.add 0%float (zip_with PrimFloat.mul x y).

Definition norm (x : list float) : float := PrimFloat.sqrt (dot x x).

Definition distance_matrix_builder (n_instances : nat)
    (data : list (list float)) : result (list (list float)) :=
  distance_matrix_builder_in 0%float (fun p q => norm (sub p q))
    n_instances data.

(** The real number a binary64 value stands for; infinities and NaN stand
    for none. *)
Definition value (x : float) : option R :=
  match Prim2SF x with
  | S754_zero _ => Some 0
  | S754_finite negative m e =>
      Some (IZR (if negative then Z.neg m else Z.pos m) * powerRZ 2 e)
  | S754_infinity _ => None
  | S754_nan => None
  end.

End F64.

(** ** Cell 6: the Ising model

<<
J, h = {}, {}
for i in range(n_instances):
    h[i] = 0
    for j in range(i+1, n_instances):
        J[(i, j)] = w[i, j]

model = dimod.BinaryQuadraticModel(h, J, 0.0, dimod.SPIN)
>> *)
Inductive Vartype : Type :=
  | SPIN
  | BINARY.

(** What [dimod.BinaryQuadraticModel(linear, quadratic, offset, vartype)]
    stores.  The constructor rejects a coupling of a variable with itself
    and adds the variables of [quadratic] that [linear] lacks; cell 6
    passes neither: its keys are [(i, j)] with [i < j], and [h] has every
    index. *)
Record BinaryQuadraticModel : Type := {
  linear : gmap nat R;
  quadratic : gmap (nat * nat) R;
  offset : R;
  vartype : Vartype
}.

Definition inner_loop_body (w : matrix) (i j : nat) (J : gmap (nat * nat) R)
    : result (gmap (nat * nat) R) :=
  wij ← getitem2 w i j;
  Return (<[(i, j) := wij]> J).

Definition outer_loop_body (n_instances : nat) (w : matrix) (i : nat)
    (Jh : gmap (nat * nat) R * gmap nat R)
    : result (gmap (nat * nat) R * gmap nat R) :=
  let '(J, h) := Jh in
  let h := <[i := 0]> h in
  J ← for_each (inner_loop_body w i) (range (i + 1) n_instances) J;
  Return (J, h).

Definition couplings_and_fields (n_instances : nat) (w : matrix)
    : result (gmap (nat * nat) R * gmap nat R) :=
  for_each (outer_loop_body n_instances w) (range 0 n_instances) (∅, ∅).

Definition max_cut_cost_formulator (n_instances : nat) (w : matrix)
    : result BinaryQuadraticModel :=
  '(J, h) ← couplings_and_fields n_instances w;
  Return {| linear := h; quadratic := J; offset := 0; vartype := SPIN |}.

(** ** The notebook's namespace

    Both cells are scripts over the kernel's global variables: a name is
    looked up when the statement that mentions it runs, an assignment
    rebinds it, and what a cell has bound stays bound when the cell
    stops on an exception.  Cell 1 (random points) has run, so
    [n_instances] and [data] are bound; the other names are bound once a
    statement has assigned them.  Left out: the loop variables [i] and
    [j], which the loops bind as globals too, and what cell 6 does after
    it has bound [model] (the sampling by dimod). *)
Module Kernel.

Record globals : Type := {
  n_instances : nat;
  data : matrix;
  w : option matrix;
  J : option (gmap (nat * nat) R);
  h : option (gmap nat R);
  model : option BinaryQuadraticModel
}.

Definition set_w (v : matrix) (g : globals) : globals :=
  {| n_instances := n_instances g; data := data g; w := Some v;
     J := J g; h := h g; model := model g |}.

Definition set_J (v : gmap (nat * nat) R) (g : globals) : globals :=
  {| n_instances := n_instances g; data := data g; w := w g;
     J := Some v; h := h g; model := model g |}.

Definition set_h (v : gmap nat R) (g : globals) : globals :=
  {| n_instances := n_instances g; data := data g; w := w g;
     J := J g; h := Some v; model := model g |}.

Definition set_model (v : BinaryQuadraticModel) (g : globals) : globals :=
  {| n_instances := n_instances g; data := data g; w := w g;
     J := J g; h := h g; model := Some v |}.

(** Reading a global variable. *)
Definition getvar {A : Type} (x : option A) : result A :=
  match x with
  | Some v => Return v
  | None => Raise NameError
  end.

(** How a statement ends, and a statement as what it does to the
    globals. *)
Inductive outcome : Type :=
  | Done
  | Raised (e : exception).

Definition statement : Type := globals -> outcome * globals.

(** An assignment: the right-hand side and the target are evaluated in
    the current globals; if that raises, nothing is bound. *)
Definition assign {A : Type} (value : globals -> result A)
    (bind : A -> globals -> globals) : statement :=
  fun g =>
    match value g with
    | Return v => (Done, bind v g)
    | Raise e => (Raised e, g)
    end.

Definition then_ (s1 s2 : statement) : statement :=
  fun g =>
    match s1 g with
    | (Done, g') => s2 g'
    | (Raised e, g') => (Raised e, g')
    end.

Fixpoint for_each_in {I : Type} (body : I -> statement) (xs : list I)
    : statement :=
  fun g =>
    match xs with
    | [] => (Done, g)
    | x :: xs' => then_ (body x) (for_each_in body xs') g
    end.

(** [w[i, j] = np.linalg.norm(data[i]-data[j])] *)
Definition store_distance (ij : nat * nat) : statement :=
  let '(i, j) := ij in
  assign
    (fun g =>
       di ← getitem (data g) i;
       dj ← getitem (data g) j;
       w0 ← getvar (w g);
       setitem2 w0 i j (norm (sub di dj)))
    set_w.

(** Cell 2. *)
Definition run_cell_2 : statement :=
  fun g =>
    let n := n_instances g in
    then_ (assign (fun _ => Return (zeros n n)) set_w)
      (for_each_in store_distance (product (range 0 n) (range 0 n))) g.

(** [h[i] = 0] *)
Definition store_field (i : nat) : statement :=
  assign (fun g => h0 ← getvar (h g); Return (<[i := 0]> h0)) set_h.

(** [J[(i, j)] = w[i, j]] *)
Definition store_coupling (i j : nat) : statement :=
  assign
    (fun g =>
       w0 ← getvar (w g);
       wij ← getitem2 w0 i j;
       J0 ← getvar (J g);
       Return (<[(i, j) := wij]> J0))
    set_J.

(** [model = dimod.BinaryQuadraticModel(h, J, 0.0, dimod.SPIN)] *)
Definition store_model : statement :=
  assign
    (fun g =>
       h0 ← getvar (h g);
       J0 ← getvar (J g);
       Return {| linear := h0; quadratic := J0; offset := 0;
                 vartype := SPIN |})
    set_model.

(** Cell 6. *)
Definition run_cell_6 : statement :=
  fun g =>
    let n := n_instances g in
    then_ (assign (fun _ => Return (∅, ∅))
             (fun '(J0, h0) g => set_h h0 (set_J J0 g)))
      (then_
         (for_each_in
            (fun i =>
               then_ (store_field i)
                 (for_each_in (store_coupling i) (range (i + 1) n)))
            (range 0 n))
         store_model) g.

(** Two kernel states from which cell 2, respectively the loops of
    cell 6, read the same values; a statement respects such a relation
    when, run from two related states, it ends the same way in related
    states. *)
Definition same_points (g1 g2 : globals) : Prop :=
  data g1 = data g2 /\ w g1 = w g2.

Definition same_weights (g1 g2 : globals) : Prop :=
  w g1 = w g2 /\ J g1 = J g2 /\ h g1 = h g2.

Definition respects (related : globals -> globals -> Prop) (s : statement)
    : Prop :=
  forall g1 g2, related g1 g2 ->
    (s g1).1 = (s g2).1 /\ related (s g1).2 (s g2).2.

(** Two kernel states with the same [n_instances], [data] and [w]: one
    in which cell 6 has not run yet, one that still holds the [J] and [h]
    of an earlier session. *)
Definition fresh : globals :=
  {| n_instances := 2; data := [[0; 0]; [3; 4]];
     w := Some [[0; 5]; [5; 0]];
     J := None; h := None; model := None |}.

Definition stale : globals :=
  {| n_instances := 2; data := [[0; 0]; [3; 4]];
     w := Some [[0; 5]; [5; 0]];
     J := Some {[ (0%nat, 1%nat) := 7 ]}; h := Some ∅; model := None |}.

(** A kernel in which cell 2 has not run: [w] is not bound. *)
Definition without_w (n : nat) : globals :=
  {| n_instances := n; data := [[0; 0]; [3; 4]];
     w := None; J := None; h := None; model := None |}.

End Kernel.

(** ** Quantities of the specification *)

(** [W[i][j]] and [s_i] as the specification writes them (0 outside the
    array; the statements below only use them inside). *)
Definition lookup2 (W : matrix) (i j : nat) : option R :=
  row ← W !! i; row !! j.

Definition entry (W : matrix) (i j : nat) : R := default 0 (lookup2 W i j).

Definition coord (p : vector) (k : nat) : R := default 0 (p !! k).

(** A SpinAssignment over [n] nodes: one value in {-1, +1} per node. *)
Definition SpinAssignment (n : nat) (s : list Z) : Prop :=
  length s = n /\ Forall (fun x => x = 1%Z \/ x = (-1)%Z) s.

Definition spin_at (s : list Z) (i : nat) : Z := default 0%Z (s !! i).

Definition spin (s : list Z) (i : nat) : R := IZR (spin_at s i).

(** Flipping all spins, [s -> -s]. *)
Definition flip (s : list Z) : list Z := Z.opp <$> s.

(** The spin assignment that follows the colours of cell 1: the red
    points up, the green points down. *)
Definition class_assignment (n : nat) : list Z :=
  (fun c => if String.eqb c "red" then 1%Z else (-1)%Z) <$> colors n.

(** The index pairs [i < j < n], and a sum over them. *)
Definition upper_pairs (n : nat) : list (nat * nat) :=
  i ← range 0 n; j ← range (i + 1) n; [(i, j)].

Definition sum_upper (n : nat) (f : nat -> nat -> R) : R :=
  sumR ((fun '(i, j) => f i j) <$> upper_pairs n).

(** Modelled from the spec: the Euclidean distance [||p - q||_2] of two
    points of one dimension, the square root of the sum over the
    coordinates [k] of [(p_k - q_k)^2]. *)
Definition l2_distance (p q : vector) : R :=
  sqrt (sumR ((fun k => (coord p k - coord q k) ^ 2) <$> range 0 (length p))).

(** Modelled from the spec: evaluating a CostModel on a spin assignment,
    [sum_i h[i]*s_i + sum_{i<j} J[i,j]*s_i*s_j]; the evaluation itself is
    done by the dimod library, whose code is not part of the notebook.
    [ising_energy] is the coupling part alone. *)
Definition ising_energy (m : BinaryQuadraticModel) (s : list Z) : R :=
  sum_upper (length s)
    (fun i j => default 0 (quadratic m !! (i, j)) * spin s i * spin s j).

Definition field_energy (m : BinaryQuadraticModel) (s : list Z) : R :=
  sumR ((fun i => default 0 (linear m !! i) * spin s i)
          <$> range 0 (length s)).

Definition evaluate (m : BinaryQuadraticModel) (s : list Z) : R :=
  field_energy m s + ising_energy m s.

(** Modelled from the spec: the cut-weight cost
    [sum_{i<j} w[i][j] * (1 - s_i*s_j) / 2]. *)
Definition cut_weight (W : matrix) (s : list Z) : R :=
  sum_upper (length W)
    (fun i j => entry W i j * (1 - spin s i * spin s j) / 2).

(** Modelled from the spec: the cut-value evaluator, [sum_{i<j} W[i][j]]
    restricted to the pairs with [s_i != s_j]; the notebook calls the
    qiskit library for it, whose code is not part of the notebook. *)
Definition cut_value (W : matrix) (s : list Z) : R :=
  sum_upper (length W)
    (fun i j => if Z.eqb (spin_at s i) (spin_at s j) then 0 else entry W i j).

(** The sum of all weights [sum_{i<j} W[i][j]]. *)
Definition total_weight (W : matrix) : R :=
  sum_upper (length W) (fun i j => entry W i j).

(** A matrix is symmetric with zero diagonal. *)
Definition symmetric (n : nat) (W : matrix) : Prop :=
  forall i j, (i < n)%nat -> (j < n)%nat -> entry W i j = entry W j i.

Definition zero_diagonal (n : nat) (W : matrix) : Prop :=
  forall i, (i < n)%nat -> entry W i i = 0.

(** The cells of [w] that cell 6 reads are inside the array. *)
Definition readable (n : nat) (w : matrix) : Prop :=
  forall i j, (i < j < n)%nat -> is_Some (lookup2 w i j).

(** * Properties *)

(** ** Loops and index ranges *)

Lemma elem_of_range (a b k : nat) : k ∈ range a b <-> (a <= k < b)%nat.
Proof. unfold range. rewrite elem_of_seq. lia. Qed.

Lemma elem_of_product {A B : Type} (xs : list A) (ys : list B) x y :
  (x, y) ∈ product xs ys <-> x ∈ xs /\ y ∈ ys.
Proof.
  unfold product. rewrite list_elem_of_bind. split.
  - intros (x' & Hin & Hx). apply list_elem_of_bind in Hin.
    destruct Hin as (y' & Hin & Hy). apply list_elem_of_singleton in Hin.
    by simplify_eq.
  - intros [Hx Hy]. exists x. split; [|done].
    apply list_elem_of_bind. exists y. split; [|done].
    by apply list_elem_of_singleton.
Qed.

Lemma elem_of_upper_pairs (n i j : nat) :
  (i, j) ∈ upper_pairs n <-> (i < j < n)%nat.
Proof.
  unfold upper_pairs. rewrite list_elem_of_bind. split.
  - intros (i' & Hin & Hi). apply list_elem_of_bind in Hin.
    destruct Hin as (j' & Hin & Hj). apply list_elem_of_singleton in Hin.
    simplify_eq. apply elem_of_range in Hi, Hj. lia.
  - intros Hij. exists i. split; [|apply elem_of_range; lia].
    apply list_elem_of_bind. exists j. split.
    + by apply list_elem_of_singleton.
    + apply elem_of_range. lia.
Qed.

(** The invariant rule of a [for] loop: an invariant of the items already
    visited that every iteration re-establishes without raising holds of
    the whole list when the loop ends, and the loop does end normally. *)
Lemma for_each_invariant {I S : Type} (body : I -> S -> result S)
    (Inv : list I -> S -> Prop) (xs : list I) (s0 : S) :
  Inv [] s0 ->
  (forall visited x rest s,
      xs = visited ++ x :: rest -> Inv visited s ->
      exists s', body x s = Return s' /\ Inv (visited ++ [x]) s') ->
  exists s', for_each body xs s0 = Return s' /\ Inv xs s'.
Proof.
  intros H0 Hstep.
  cut (forall todo visited s,
          xs = visited ++ todo -> Inv visited s ->
          exists s', for_each body todo s = Return s' /\ Inv xs s').
  { intros Hgen. by apply (Hgen xs [] s0). }
  induction todo as [|x todo IH]; intros visited s Hxs Hinv.
  - exists s. rewrite app_nil_r in Hxs. by subst.
  - destruct (Hstep visited x todo s Hxs Hinv) as (s' & Hbody & Hinv').
    cbn. rewrite Hbody. cbn. apply (IH (visited ++ [x])); [|done].
    by rewrite <- app_assoc.
Qed.

(** ** Sums of reals *)

Lemma sumR_cons (x : R) (xs : list R) : sumR (x :: xs) = x + sumR xs.
Proof. reflexivity. Qed.

Lemma sumR_ext {A : Type} (f g : A -> R) (xs : list A) :
  (forall x, x ∈ xs -> f x = g x) -> sumR (f <$> xs) = sumR (g <$> xs).
Proof.
  induction xs as [|x xs IH]; intros Hfg; [done|].
  rewrite !fmap_cons, !sumR_cons, (Hfg x) by constructor.
  rewrite IH; [done|]. intros y Hy. apply Hfg. by constructor.
Qed.

Lemma sumR_half_diff {A : Type} (f g : A -> R) (xs : list A) :
  sumR ((fun x => (f x - g x) / 2) <$> xs)
  = (sumR (f <$> xs) - sumR (g <$> xs)) / 2.
Proof.
  induction xs as [|x xs IH]; [cbn; lra|].
  rewrite !fmap_cons, !sumR_cons, IH. lra.
Qed.

Lemma sumR_zero {A : Type} (xs : list A) : sumR ((fun _ => 0) <$> xs) = 0.
Proof.
  induction xs as [|x xs IH]; [done|].
  rewrite fmap_cons, sumR_cons, IH. lra.
Qed.

Lemma sum_upper_ext (n : nat) (f g : nat -> nat -> R) :
  (forall i j, (i < j < n)%nat -> f i j = g i j) ->
  sum_upper n f = sum_upper n g.
Proof.
  intros Hfg. unfold sum_upper. apply sumR_ext.
  intros [i j] Hin. apply Hfg. by apply elem_of_upper_pairs.
Qed.

Lemma sum_upper_half_diff (n : nat) (f g : nat -> nat -> R) :
  sum_upper n (fun i j => (f i j - g i j) / 2)
  = (sum_upper n f - sum_upper n g) / 2.
Proof.
  unfold sum_upper.
  rewrite <- (sumR_half_diff (fun '(i, j) => f i j) (fun '(i, j) => g i j)).
  apply sumR_ext. by intros [i j] _.
Qed.

(** ** Arrays *)

Lemma shape_row (n m : nat) (a : matrix) (i : nat) (row : vector) :
  shape n m a -> a !! i = Some row -> length row = m.
Proof.
  intros [_ Hm] Hrow. rewrite Forall_forall in Hm.
  apply Hm. by eapply list_elem_of_lookup_2.
Qed.

Lemma shape_lookup2 (n m : nat) (a : matrix) (i j : nat) :
  shape n m a -> (i < n)%nat -> (j < m)%nat -> is_Some (lookup2 a i j).
Proof.
  intros Hs Hi Hj. unfold lookup2.
  destruct (lookup_lt_is_Some_2 a i) as [row Hrow]; [destruct Hs; lia|].
  rewrite Hrow. cbn. apply lookup_lt_is_Some_2.
  by rewrite (shape_row n m a i row).
Qed.

Lemma getitem2_lookup2 (a : matrix) (i j : nat) (v : R) :
  lookup2 a i j = Some v -> getitem2 a i j = Return v.
Proof.
  unfold lookup2, getitem2, getitem. intros H.
  destruct (a !! i) as [row|]; [|done]. cbn in *. by rewrite H.
Qed.

Lemma entry_lookup2 (a : matrix) (i j : nat) (v : R) :
  lookup2 a i j = Some v -> entry a i j = v.
Proof. unfold entry. by intros ->. Qed.

Lemma shape_zeros (n m : nat) : shape n m (zeros n m).
Proof.
  unfold zeros. split; [apply length_replicate|].
  apply Forall_replicate, length_replicate.
Qed.

(** What [a[i, j] = v] does to the array when [(i, j)] is inside. *)
Lemma setitem2_inside (n m : nat) (a : matrix) (i j : nat) (v : R) :
  shape n m a -> (i < n)%nat -> (j < m)%nat ->
  exists a', setitem2 a i j v = Return a' /\ shape n m a' /\
    forall i' j', lookup2 a' i' j' =
      if decide (i' = i /\ j' = j) then Some v else lookup2 a i' j'.
Proof.
  intros Hs Hi Hj. unfold setitem2.
  destruct (lookup_lt_is_Some_2 a i) as [row Hrow]; [destruct Hs; lia|].
  pose proof (shape_row n m a i row Hs Hrow) as Hlen.
  destruct Hs as [Hn Hm].
  destruct (lookup_lt_is_Some_2 row j) as [x Hx]; [lia|].
  rewrite Hrow, Hx. eexists. split; [done|]. split.
  - split; [by rewrite length_insert|].
    apply Forall_insert; [done|]. by rewrite length_insert.
  - intros i' j'. unfold lookup2.
    destruct (decide (i' = i)) as [->|Hne].
    + rewrite list_lookup_insert_eq by lia. cbn. rewrite Hrow. cbn.
      destruct (decide (j' = j)) as [->|Hne'].
      * rewrite decide_True by done. apply list_lookup_insert_eq. lia.
      * rewrite decide_False by tauto. by apply list_lookup_insert_ne.
    + rewrite decide_False by tauto. by rewrite list_lookup_insert_ne.
Qed.

(** ** The 2-norm *)

Lemma dot_cons (x y : R) (xs ys : vector) :
  dot (x :: xs) (y :: ys) = x * y + dot xs ys.
Proof. reflexivity. Qed.

Lemma dot_self_nonneg (x : vector) : 0 <= dot x x.
Proof.
  induction x as [|a x IH]; [cbn; lra|].
  rewrite dot_cons. nra.
Qed.

Lemma norm_nonneg (x : vector) : 0 <= norm x.
Proof. apply sqrt_pos. Qed.

Lemma norm_sqr (x : vector) : norm x * norm x = dot x x.
Proof. apply sqrt_sqrt, dot_self_nonneg. Qed.

Lemma dot_sub_swap (p q : vector) :
  dot (sub p q) (sub p q) = dot (sub q p) (sub q p).
Proof.
  revert q. induction p as [|x p IH]; intros [|y q]; try done.
  unfold sub in *. cbn [zip_with]. rewrite !dot_cons, IH. lra.
Qed.

Lemma norm_sub_swap (p q : vector) : norm (sub p q) = norm (sub q p).
Proof. unfold norm. by rewrite dot_sub_swap. Qed.

Lemma dot_sub_same (p : vector) : dot (sub p p) (sub p p) = 0.
Proof.
  induction p as [|x p IH]; [done|].
  unfold sub in *. cbn [zip_with]. rewrite dot_cons, IH. lra.
Qed.

Lemma norm_sub_same (p : vector) : norm (sub p p) = 0.
Proof. unfold norm. rewrite dot_sub_same. apply sqrt_0. Qed.

(** numpy's [norm(p - q)] is the Euclidean distance of the specification. *)
Lemma dot_sub_coords (p q : vector) :
  length p = length q ->
  dot (sub p q) (sub p q)
  = sumR ((fun k => (coord p k - coord q k) ^ 2) <$> range 0 (length p)).
Proof.
  unfold range. rewrite Nat.sub_0_r.
  revert q. induction p as [|x p IH]; intros [|y q] Hlen; try done.
  injection Hlen as Hlen.
  unfold sub in *. cbn [zip_with length]. rewrite dot_cons, (IH q Hlen).
  cbn [seq]. rewrite fmap_cons, sumR_cons, <- fmap_S_seq, <- list_fmap_compose.
  f_equal. unfold coord. cbn. lra.
Qed.

Lemma norm_sub_l2_distance (p q : vector) :
  length p = length q -> norm (sub p q) = l2_distance p q.
Proof. intros Hlen. unfold norm, l2_distance. by rewrite dot_sub_coords. Qed.

(** ** Cell 2 *)

(** The loop of cell 2 ends normally and leaves in every cell [(i, j)] the
    norm of the difference of the points [i] and [j]. *)
Lemma distance_matrix_builder_cells (n : nat) (data : matrix) :
  length data = n ->
  exists W, distance_matrix_builder n data = Return W /\ shape n n W /\
    forall i j di dj,
      data !! i = Some di -> data !! j = Some dj ->
      lookup2 W i j = Some (norm (sub di dj)).
Proof.
  intros Hlen. unfold distance_matrix_builder.
  destruct (for_each_invariant (distance_loop_body data)
    (fun visited w => shape n n w /\
       forall i j di dj, (i, j) ∈ visited ->
         data !! i = Some di -> data !! j = Some dj ->
         lookup2 w i j = Some (norm (sub di dj)))
    (product (range 0 n) (range 0 n)) (zeros n n)) as (W & HW & Hs & Hcells).
  - split; [apply shape_zeros|]. intros i j di dj Hin. by apply elem_of_nil in Hin.
  - intros visited [i j] rest w Hxs [Hs Hcells].
    assert ((i, j) ∈ product (range 0 n) (range 0 n)) as Hin.
    { rewrite Hxs. apply elem_of_app. right. constructor. }
    apply elem_of_product in Hin. rewrite !elem_of_range in Hin.
    destruct Hin as [Hi Hj].
    destruct (lookup_lt_is_Some_2 data i) as [di Hdi]; [lia|].
    destruct (lookup_lt_is_Some_2 data j) as [dj Hdj]; [lia|].
    destruct (setitem2_inside n n w i j (norm (sub di dj)) Hs)
      as (w' & Hset & Hs' & Hw'); [lia..|].
    exists w'. split.
    { cbn. unfold getitem. rewrite Hdi, Hdj. cbn. exact Hset. }
    split; [done|]. intros i' j' di' dj' Hin' Hdi' Hdj'. rewrite Hw'.
    case_decide as Heq.
    + destruct Heq as [-> ->]. congruence.
    + apply Hcells; [|done..].
      apply elem_of_app in Hin'. destruct Hin' as [|Hin']; [done|].
      apply list_elem_of_singleton in Hin'. simplify_eq. tauto.
  - exists W. split; [done|]. split; [done|].
    intros i j di dj Hdi Hdj. apply Hcells; [|done..].
    apply elem_of_product. rewrite !elem_of_range.
    apply lookup_lt_Some in Hdi, Hdj. lia.
Qed.

(** ** Cell 6 *)

Lemma shape_readable (n : nat) (w : matrix) : shape n n w -> readable n w.
Proof. intros Hs i j Hij. apply (shape_lookup2 n n); [done|lia..]. Qed.

Lemma inner_loop_spec (w : matrix) (i n : nat) (J0 : gmap (nat * nat) R) :
  (forall j, (i < j < n)%nat -> is_Some (lookup2 w i j)) ->
  exists J', for_each (inner_loop_body w i) (range (i + 1) n) J0 = Return J' /\
    forall a b, J' !! (a, b) =
      if decide (a = i /\ (i < b < n)%nat) then lookup2 w a b else J0 !! (a, b).
Proof.
  intros Hread.
  destruct (for_each_invariant (inner_loop_body w i)
    (fun visited (J : gmap (nat * nat) R) =>
       forall a b, J !! (a, b) =
         if decide (a = i /\ b ∈ visited) then lookup2 w a b else J0 !! (a, b))
    (range (i + 1) n) J0) as (J' & HJ' & Hinv).
  - intros a b. rewrite decide_False; [done|]. intros [_ Hin].
    by apply elem_of_nil in Hin.
  - intros visited j rest J Hxs Hinv.
    assert (j ∈ range (i + 1) n) as Hj.
    { rewrite Hxs. apply elem_of_app. right. constructor. }
    apply elem_of_range in Hj.
    destruct (Hread j) as [v Hv]; [lia|].
    exists (<[(i, j) := v]> J). split.
    { unfold inner_loop_body. by rewrite (getitem2_lookup2 w i j v Hv). }
    intros a b. rewrite lookup_insert, Hinv.
    destruct (decide ((i, j) = (a, b))) as [Heq|Hne].
    + simplify_eq. rewrite decide_True; [done|]. split; [done|].
      apply elem_of_app. right. constructor.
    + destruct (decide (a = i /\ b ∈ visited)) as [[-> Hin]|Hnot].
      * rewrite decide_True; [done|]. split; [done|].
        apply elem_of_app. by left.
      * rewrite decide_False; [done|]. intros [-> Hin].
        apply elem_of_app in Hin. destruct Hin as [Hin|Hin]; [tauto|].
        apply list_elem_of_singleton in Hin. by subst.
  - exists J'. split; [done|]. intros a b. rewrite Hinv.
    destruct (decide (a = i /\ (i < b < n)%nat)) as [[-> Hb]|Hnot].
    + rewrite decide_True; [done|]. split; [done|]. apply elem_of_range. lia.
    + rewrite decide_False; [done|]. intros [-> Hin].
      apply elem_of_range in Hin. apply Hnot. split; [done|lia].
Qed.

(** The loops of cell 6 end normally and leave [J[(i, j)] = w[i, j]] for
    exactly the keys [i < j < n], and [h[i] = 0] for exactly the keys
    [i < n]. *)
Lemma couplings_and_fields_spec (n : nat) (w : matrix) :
  readable n w ->
  exists J h, couplings_and_fields n w = Return (J, h) /\
    (forall a b, J !! (a, b) =
       if decide (a < b < n)%nat then lookup2 w a b else None) /\
    (forall a, h !! a = if decide (a < n)%nat then Some 0 else None).
Proof.
  intros Hread. unfold couplings_and_fields.
  destruct (for_each_invariant (outer_loop_body n w)
    (fun visited (Jh : gmap (nat * nat) R * gmap nat R) =>
       (forall a b, Jh.1 !! (a, b) =
          if decide (a ∈ visited /\ (a < b < n)%nat)
          then lookup2 w a b else None) /\
       (forall a, Jh.2 !! a = if decide (a ∈ visited) then Some 0 else None))
    (range 0 n) (∅, ∅)) as ([J h] & HJh & HJ & Hh).
  - split.
    + intros a b. cbn. rewrite lookup_empty, decide_False; [done|].
      intros [Hin _]. by apply elem_of_nil in Hin.
    + intros a. cbn. rewrite lookup_empty, decide_False; [done|].
      apply not_elem_of_nil.
  - intros visited i rest [J h] Hxs [HJ Hh]. cbn in HJ, Hh.
    destruct (inner_loop_spec w i n J) as (J' & HJ' & Hlook).
    { intros j Hj. apply Hread. lia. }
    exists (J', <[i := 0]> h). split.
    { unfold outer_loop_body. by rewrite HJ'. }
    split; cbn.
    + intros a b. rewrite Hlook, HJ.
      destruct (decide (a = i /\ (i < b < n)%nat)) as [[-> Hb]|Hnot].
      * rewrite decide_True; [done|]. split; [|done].
        apply elem_of_app. right. constructor.
      * destruct (decide (a ∈ visited /\ (a < b < n)%nat)) as [[Hin Hb]|Hnot'].
        -- rewrite decide_True; [done|]. split; [|done].
           apply elem_of_app. by left.
        -- rewrite decide_False; [done|]. intros [Hin Hb].
           apply elem_of_app in Hin. destruct Hin as [Hin|Hin]; [tauto|].
           apply list_elem_of_singleton in Hin. subst. tauto.
    + intros a. rewrite lookup_insert, Hh.
      destruct (decide (i = a)) as [->|Hne].
      * rewrite decide_True; [done|]. apply elem_of_app. right. constructor.
      * destruct (decide (a ∈ visited)) as [Hin|Hnot].
        -- rewrite decide_True; [done|]. apply elem_of_app. by left.
        -- rewrite decide_False; [done|]. intros Hin.
           apply elem_of_app in Hin. destruct Hin as [Hin|Hin]; [tauto|].
           apply list_elem_of_singleton in Hin. by subst.
  - exists J, h. split; [done|]. cbn in HJ, Hh. split.
    + intros a b. rewrite HJ.
      destruct (decide (a < b < n)%nat) as [Hab|Hnot].
      * rewrite decide_True; [done|]. split; [|done]. apply elem_of_range. lia.
      * rewrite decide_False; [done|]. tauto.
    + intros a. rewrite Hh.
      destruct (decide (a < n)%nat) as [Ha|Hnot].
      * rewrite decide_True; [done|]. apply elem_of_range. lia.
      * rewrite decide_False; [done|]. rewrite elem_of_range. lia.
Qed.

(** The model that cell 6 hands to dimod. *)
Lemma max_cut_cost_formulator_spec (n : nat) (w : matrix) :
  readable n w ->
  exists m, max_cut_cost_formulator n w = Return m /\
    (forall a b, quadratic m !! (a, b) =
       if decide (a < b < n)%nat then lookup2 w a b else None) /\
    (forall a, linear m !! a = if decide (a < n)%nat then Some 0 else None) /\
    offset m = 0 /\ vartype m = SPIN.
Proof.
  intros Hread.
  destruct (couplings_and_fields_spec n w Hread) as (J & h & HJh & HJ & Hh).
  unfold max_cut_cost_formulator. rewrite HJh. cbn.
  eexists. split; [done|]. by cbn.
Qed.

(** ** Spin assignments *)

Lemma spin_at_flip (s : list Z) (i : nat) :
  spin_at (flip s) i = (- spin_at s i)%Z.
Proof.
  unfold spin_at, flip. rewrite list_lookup_fmap.
  by destruct (s !! i).
Qed.

Lemma SpinAssignment_spin_at (n : nat) (s : list Z) (i : nat) :
  SpinAssignment n s -> (i < n)%nat ->
  spin_at s i = 1%Z \/ spin_at s i = (-1)%Z.
Proof.
  intros [Hlen Hall] Hi. unfold spin_at.
  destruct (lookup_lt_is_Some_2 s i) as [x Hx]; [lia|].
  rewrite Hx. cbn. rewrite Forall_forall in Hall.
  apply Hall. by eapply list_elem_of_lookup_2.
Qed.

(** On spins, "different" is [(1 - s_i*s_j)/2]. *)
Lemma cut_indicator (x : R) (a b : Z) :
  a = 1%Z \/ a = (-1)%Z -> b = 1%Z \/ b = (-1)%Z ->
  (if Z.eqb a b then 0 else x) = (x - x * IZR a * IZR b) / 2.
Proof. intros [-> | ->] [-> | ->]; cbn [Z.eqb Pos.eqb]; lra. Qed.

(** The energy that the model of cell 6 assigns to [s]. *)
Lemma formulated_energy (n : nat) (W : matrix) (m : BinaryQuadraticModel)
    (s : list Z) :
  shape n n W -> length s = n ->
  (forall a b, quadratic m !! (a, b) =
     if decide (a < b < n)%nat then lookup2 W a b else None) ->
  ising_energy m s = sum_upper n (fun i j => entry W i j * spin s i * spin s j).
Proof.
  intros Hs Hlen HJ. unfold ising_energy. rewrite Hlen.
  apply sum_upper_ext. intros i j Hij.
  rewrite HJ, decide_True by done. done.
Qed.

Lemma formulated_field_energy (n : nat) (m : BinaryQuadraticModel)
    (s : list Z) :
  (forall a, linear m !! a = if decide (a < n)%nat then Some 0 else None) ->
  field_energy m s = 0.
Proof.
  intros Hh. unfold field_energy.
  rewrite (sumR_ext _ (fun _ => 0)); [apply sumR_zero|].
  intros i _. rewrite Hh. case_decide; apply Rmult_0_l.
Qed.

(** * The specification's properties *)

(** ** The distance matrix *)

(** In exact arithmetic the entries of cell 2's matrix are the Euclidean
    distances of the points. *)
Lemma exact_entries_are_euclidean_distances (n d : nat) (data : matrix) :
  shape n d data ->
  exists W, distance_matrix_builder n data = Return W /\ shape n n W /\
    forall i j, (i < n)%nat -> (j < n)%nat ->
      exists p_i p_j, data !! i = Some p_i /\ data !! j = Some p_j /\
        getitem2 W i j = Return (l2_distance p_i p_j).
Proof.
  intros Hs.
  destruct (distance_matrix_builder_cells n data) as (W & HW & HsW & Hcells).
  { by destruct Hs. }
  exists W. split; [done|]. split; [done|]. intros i j Hi Hj.
  destruct (lookup_lt_is_Some_2 data i) as [p_i Hpi]; [destruct Hs; lia|].
  destruct (lookup_lt_is_Some_2 data j) as [p_j Hpj]; [destruct Hs; lia|].
  exists p_i, p_j. split; [done|]. split; [done|].
  apply getitem2_lookup2. rewrite (Hcells i j p_i p_j Hpi Hpj).
  f_equal. apply norm_sub_l2_distance.
  by rewrite (shape_row n d data i p_i), (shape_row n d data j p_j).
Qed.

(** *** The loop in any arithmetic *)










(** The cell over the reals is the loop in exact arithmetic. *)
Lemma builder_in_exact_arithmetic (n : nat) (data : matrix) :
  distance_matrix_builder n data
  = distance_matrix_builder_in 0 (fun p q => norm (sub p q)) n data.
Proof. reflexivity. Qed.

(** In binary64 the distance of [(0, 0)] and [(3, 4)] comes out exact. *)
Example F64_three_four :
  F64.distance_matrix_builder 2 [[0; 0]; [3; 4]]%float
  = Return [[0; 5]; [5; 0]]%float.
Proof. by vm_compute. Qed.

(** C3: the matrix that cell 2 returns for [n] points is an [n x n]
    matrix that is symmetric, has a zero diagonal and has no negative
    entry. *)
Theorem C3_symmetric_zero_diagonal_nonnegative (n d : nat) (data : matrix) :
  shape n d data ->
  exists W, distance_matrix_builder n data = Return W /\ shape n n W /\
    symmetric n W /\ zero_diagonal n W /\
    forall i j, (i < n)%nat -> (j < n)%nat -> 0 <= entry W i j.
Proof.
  intros [Hlen _].
  destruct (distance_matrix_builder_cells n data Hlen)
    as (W & HW & HsW & Hcells).
  assert (forall i j, (i < n)%nat -> (j < n)%nat ->
            exists p_i p_j, data !! i = Some p_i /\ data !! j = Some p_j)
    as Hpoints.
  { intros i j Hi Hj.
    destruct (lookup_lt_is_Some_2 data i) as [p_i Hpi]; [lia|].
    destruct (lookup_lt_is_Some_2 data j) as [p_j Hpj]; [lia|]. eauto. }
  exists W. split; [done|]. split; [done|]. split; [|split].
  - intros i j Hi Hj. destruct (Hpoints i j Hi Hj) as (p_i & p_j & Hpi & Hpj).
    rewrite (entry_lookup2 W i j _ (Hcells i j p_i p_j Hpi Hpj)).
    rewrite (entry_lookup2 W j i _ (Hcells j i p_j p_i Hpj Hpi)).
    apply norm_sub_swap.
  - intros i Hi. destruct (Hpoints i i Hi Hi) as (p_i & _ & Hpi & _).
    rewrite (entry_lookup2 W i i _ (Hcells i i p_i p_i Hpi Hpi)).
    apply norm_sub_same.
  - intros i j Hi Hj. destruct (Hpoints i j Hi Hj) as (p_i & p_j & Hpi & Hpj).
    rewrite (entry_lookup2 W i j _ (Hcells i j p_i p_j Hpi Hpj)).
    apply norm_nonneg.
Qed.

Lemma C3_witness :
  exists W, distance_matrix_builder 2 [[0; 0]; [3; 4]] = Return W /\
    shape 2 2 W /\ symmetric 2 W /\ zero_diagonal 2 W /\
    forall i j, (i < 2)%nat -> (j < 2)%nat -> 0 <= entry W i j.
Proof.
  apply (C3_symmetric_zero_diagonal_nonnegative 2 2 [[0; 0]; [3; 4]]).
  split; [reflexivity | repeat constructor].
Defined.

(** C6: cell 2 ends normally on no point and on one point: for the empty
    point set it returns the empty matrix, for a single point the matrix
    [[0]]. *)
Theorem C6_builder_on_zero_and_one_point :
  distance_matrix_builder 0 [] = Return [] /\
  forall p : vector, distance_matrix_builder 1 [p] = Return [[0]].
Proof.
  split; [reflexivity|]. intros p.
  change (distance_matrix_builder 1 [p]) with
    (@Return matrix [[norm (sub p p)]]).
  by rewrite norm_sub_same.
Qed.

(** Indexing is checked: with fewer points than [n_instances] the loop
    raises. *)
Example builder_too_few_points :
  distance_matrix_builder 1 [] = Raise IndexError.
Proof. reflexivity. Qed.

(** ** The cost model *)

Example formulator_2 :
  max_cut_cost_formulator 2 [[1; 2]; [3; 4]] =
  Return {| linear := <[1%nat := 0]> (<[0%nat := 0]> ∅);
            quadratic := {[ (0%nat, 1%nat) := 2 ]};
            offset := 0; vartype := SPIN |}.
Proof. reflexivity. Qed.

(** C1, as stated, fails: on two nodes joined by an edge of weight 1 and
    both spins up, the model evaluates to 1 (offset included) while the
    cut weight is 0. *)
Lemma C1_counterexample :
  exists m, max_cut_cost_formulator 2 [[0; 1]; [1; 0]] = Return m /\
    evaluate m [1; 1]%Z + offset m = 1 /\
    cut_weight [[0; 1]; [1; 0]] [1; 1]%Z = 0 /\
    evaluate m [1; 1]%Z + offset m <> cut_weight [[0; 1]; [1; 0]] [1; 1]%Z.
Proof.
  exists {| linear := <[1%nat := 0]> (<[0%nat := 0]> ∅);
            quadratic := <[(0%nat, 1%nat) := 1]> ∅;
            offset := 0; vartype := SPIN |}.
  split; [reflexivity|]. cbn [offset].
  assert (evaluate
            {| linear := <[1%nat := 0]> (<[0%nat := 0]> ∅);
               quadratic := <[(0%nat, 1%nat) := 1]> ∅;
               offset := 0; vartype := SPIN |} [1; 1]%Z = 1) as ->.
  { unfold evaluate, field_energy, ising_energy, sum_upper, spin.
    vm_compute. lra. }
  assert (cut_weight [[0; 1]; [1; 0]] [1; 1]%Z = 0) as ->.
  { unfold cut_weight, sum_upper, spin. vm_compute. lra. }
  repeat split; lra.
Qed.

(** C1, amended: for every [n x n] matrix [W] and spin assignment [s], the
    model of cell 6 evaluated on [s], plus its offset 0, is
    [sum_{i<j} W[i][j]*s_i*s_j]; the cut weight
    [sum_{i<j} W[i][j]*(1 - s_i*s_j)/2] is half of what this value lacks
    to the total weight [sum_{i<j} W[i][j]]. *)
Theorem C1_cost_model_energy (n : nat) (W : matrix) (s : list Z) :
  shape n n W -> SpinAssignment n s ->
  exists m, max_cut_cost_formulator n W = Return m /\
    offset m = 0 /\
    evaluate m s + offset m
    = sum_upper n (fun i j => entry W i j * spin s i * spin s j) /\
    cut_weight W s = (total_weight W - (evaluate m s + offset m)) / 2.
Proof.
  intros Hs [Hlen _].
  destruct (max_cut_cost_formulator_spec n W (shape_readable n W Hs))
    as (m & Hm & HJ & Hh & Hoff & _).
  exists m. split; [done|]. split; [done|].
  assert (evaluate m s + offset m
          = sum_upper n (fun i j => entry W i j * spin s i * spin s j)) as He.
  { unfold evaluate.
    rewrite (formulated_field_energy n m s Hh), Hoff.
    rewrite (formulated_energy n W m s Hs Hlen HJ). lra. }
  split; [done|]. rewrite He.
  unfold cut_weight, total_weight. destruct Hs as [-> _].
  rewrite <- sum_upper_half_diff. apply sum_upper_ext.
  intros i j _. lra.
Qed.

Lemma C1_witness :
  exists m, max_cut_cost_formulator 2 [[0; 1]; [1; 0]] = Return m /\
    offset m = 0 /\
    evaluate m [1; -1]%Z + offset m
    = sum_upper 2 (fun i j => entry [[0; 1]; [1; 0]] i j
                              * spin [1; -1]%Z i * spin [1; -1]%Z j) /\
    cut_weight [[0; 1]; [1; 0]] [1; -1]%Z
    = (total_weight [[0; 1]; [1; 0]]
       - (evaluate m [1; -1]%Z + offset m)) / 2.
Proof.
  apply (C1_cost_model_energy 2 [[0; 1]; [1; 0]] [1; -1]%Z).
  - split; [reflexivity | repeat constructor].
  - split; [reflexivity | repeat constructor; lia].
Defined.

(** C4, as stated, fails: a matrix that is neither symmetric nor zero on
    the diagonal is accepted, and a model comes back. *)
Lemma C4_counterexample :
  shape 2 2 [[1; 2]; [3; 4]] /\
  ~ symmetric 2 [[1; 2]; [3; 4]] /\
  ~ zero_diagonal 2 [[1; 2]; [3; 4]] /\
  max_cut_cost_formulator 2 [[1; 2]; [3; 4]] =
  Return {| linear := <[1%nat := 0]> (<[0%nat := 0]> ∅);
            quadratic := {[ (0%nat, 1%nat) := 2 ]};
            offset := 0; vartype := SPIN |}.
Proof.
  split; [split; [reflexivity | repeat constructor]|].
  split; [|split; [|reflexivity]].
  - intros Hsym. specialize (Hsym 0%nat 1%nat ltac:(lia) ltac:(lia)).
    change (2 = 3) in Hsym. lra.
  - intros Hdiag. specialize (Hdiag 0%nat ltac:(lia)).
    change (1 = 0) in Hdiag. lra.
Qed.

(** C4, amended: cell 6 does not validate [w]; for every [n x n] matrix,
    symmetric or not and whatever its diagonal, it ends normally with
    [J[(i, j)] = w[i][j]] for all [i < j < n] and no other coupling. *)
Theorem C4_formulator_accepts_every_square_matrix (n : nat) (W : matrix) :
  shape n n W ->
  exists m, max_cut_cost_formulator n W = Return m /\
    (forall i j, (i < j < n)%nat -> quadratic m !! (i, j) = Some (entry W i j)) /\
    (forall i j, ~ (i < j < n)%nat -> quadratic m !! (i, j) = None).
Proof.
  intros Hs.
  destruct (max_cut_cost_formulator_spec n W (shape_readable n W Hs))
    as (m & Hm & HJ & _).
  exists m. split; [done|]. split.
  - intros i j Hij. rewrite HJ, decide_True by done.
    destruct (shape_lookup2 n n W i j Hs) as [v Hv]; [lia..|].
    by rewrite (entry_lookup2 W i j v Hv).
  - intros i j Hij. by rewrite HJ, decide_False.
Qed.

Lemma C4_witness :
  exists m, max_cut_cost_formulator 2 [[1; 2]; [3; 4]] = Return m /\
    (forall i j, (i < j < 2)%nat ->
       quadratic m !! (i, j) = Some (entry [[1; 2]; [3; 4]] i j)) /\
    (forall i j, ~ (i < j < 2)%nat -> quadratic m !! (i, j) = None).
Proof.
  apply (C4_formulator_accepts_every_square_matrix 2 [[1; 2]; [3; 4]]).
  split; [reflexivity | repeat constructor].
Defined.

(** C5, as stated, fails: on the one-node matrix [[0]] cell 6 ends
    normally, with the model of one free spin. *)
Lemma C5_counterexample :
  max_cut_cost_formulator 1 [[0]] =
  Return {| linear := {[ 0%nat := 0 ]}; quadratic := ∅;
            offset := 0; vartype := SPIN |}.
Proof. reflexivity. Qed.

(** C5, amended: with fewer than two nodes cell 6 ends normally, without
    reading [w]: the model has no coupling, offset 0, and the field
    [h[0] = 0] when there is one node, no field when there is none. *)
Theorem C5_formulator_below_two_nodes (n : nat) (W : matrix) :
  (n < 2)%nat ->
  exists m, max_cut_cost_formulator n W = Return m /\
    quadratic m = ∅ /\ offset m = 0 /\
    linear m = (if decide (n = 1%nat) then {[ 0%nat := 0 ]} else ∅).
Proof.
  intros Hn. destruct n as [|[|n]]; [| |lia].
  - eexists. split; [reflexivity|]. by cbn.
  - eexists. split; [reflexivity|]. by cbn.
Qed.

Lemma C5_witness :
  exists m, max_cut_cost_formulator 1 [[0]] = Return m /\
    quadratic m = ∅ /\ offset m = 0 /\
    linear m = (if decide (1%nat = 1%nat) then {[ 0%nat := 0 ]} else ∅).
Proof. apply (C5_formulator_below_two_nodes 1 [[0]]). lia. Defined.

(** C9: cell 6 reads [w] only strictly above the diagonal: two [n x n]
    matrices that agree on all entries [i < j] give the same model
    (couplings, fields and offset), whatever their diagonals and lower
    triangles; every field [h[i]] is 0 and the offset is 0. *)
Theorem C9_only_upper_triangle_is_read (n : nat) (W W' : matrix) :
  shape n n W -> shape n n W' ->
  (forall i j, (i < j < n)%nat -> entry W i j = entry W' i j) ->
  exists m, max_cut_cost_formulator n W = Return m /\
    max_cut_cost_formulator n W' = Return m /\
    (forall i, (i < n)%nat -> linear m !! i = Some 0) /\
    offset m = 0.
Proof.
  intros Hs Hs' Hupper.
  destruct (max_cut_cost_formulator_spec n W (shape_readable n W Hs))
    as (m & Hm & HJ & Hh & Hoff & Hvar).
  destruct (max_cut_cost_formulator_spec n W' (shape_readable n W' Hs'))
    as (m' & Hm' & HJ' & Hh' & Hoff' & Hvar').
  assert (m' = m) as ->.
  { destruct m as [h J c v], m' as [h' J' c' v']. cbn in *. f_equal.
    - apply map_eq. intros i. by rewrite Hh, Hh'.
    - apply map_eq. intros [i j]. rewrite HJ, HJ'.
      case_decide as Hij; [|done].
      destruct (shape_lookup2 n n W i j Hs) as [x Hx]; [lia..|].
      destruct (shape_lookup2 n n W' i j Hs') as [x' Hx']; [lia..|].
      specialize (Hupper i j Hij).
      rewrite (entry_lookup2 W i j x Hx) in Hupper.
      rewrite (entry_lookup2 W' i j x' Hx') in Hupper.
      by rewrite Hx, Hx', Hupper.
    - by rewrite Hoff, Hoff'.
    - by rewrite Hvar, Hvar'. }
  exists m. split; [done|]. split; [done|]. split; [|done].
  intros i Hi. by rewrite Hh, decide_True.
Qed.

Lemma C9_witness :
  exists m, max_cut_cost_formulator 2 [[0; 5]; [5; 0]] = Return m /\
    max_cut_cost_formulator 2 [[1; 5]; [7; 9]] = Return m /\
    (forall i, (i < 2)%nat -> linear m !! i = Some 0) /\
    offset m = 0.
Proof.
  apply (C9_only_upper_triangle_is_read 2 [[0; 5]; [5; 0]] [[1; 5]; [7; 9]]).
  - split; [reflexivity | repeat constructor].
  - split; [reflexivity | repeat constructor].
  - intros i j Hij.
    assert (i = 0%nat /\ j = 1%nat) as [-> ->] by lia. reflexivity.
Defined.

(** C7: flipping every spin leaves the cut value unchanged. *)
Theorem C7_cut_value_flip (W : matrix) (s : list Z) :
  cut_value W (flip s) = cut_value W s.
Proof.
  unfold cut_value. apply sum_upper_ext. intros i j _.
  rewrite !spin_at_flip.
  destruct (Z.eqb_spec (- spin_at s i) (- spin_at s j)) as [Heq|Hne],
    (Z.eqb_spec (spin_at s i) (spin_at s j)) as [Heq'|Hne'];
    try done; lia.
Qed.

(** C10: for every [n x n] matrix [W], the model of cell 6 and every spin
    assignment [s], the cut value of [s] is
    [(sum_{i<j} W[i][j] - E(s)) / 2] with
    [E(s) = sum_{i<j} J[i,j]*s_i*s_j]; hence [s] minimises the energy
    over the spin assignments exactly when it maximises the cut value. *)
Theorem C10_energy_and_cut_value (n : nat) (W : matrix) :
  shape n n W ->
  exists m, max_cut_cost_formulator n W = Return m /\
    (forall s, SpinAssignment n s ->
       cut_value W s = (total_weight W - ising_energy m s) / 2) /\
    (forall s, SpinAssignment n s ->
       (forall t, SpinAssignment n t -> ising_energy m s <= ising_energy m t)
       <->
       (forall t, SpinAssignment n t -> cut_value W t <= cut_value W s)).
Proof.
  intros Hs.
  destruct (max_cut_cost_formulator_spec n W (shape_readable n W Hs))
    as (m & Hm & HJ & _).
  assert (forall s, SpinAssignment n s ->
            cut_value W s = (total_weight W - ising_energy m s) / 2) as Hcut.
  { intros s Hspin.
    rewrite (formulated_energy n W m s Hs (proj1 Hspin) HJ).
    unfold cut_value, total_weight. rewrite (proj1 Hs).
    rewrite <- sum_upper_half_diff. apply sum_upper_ext. intros i j Hij.
    unfold spin.
    apply cut_indicator; apply (SpinAssignment_spin_at n); [done|lia|done|lia]. }
  exists m. split; [done|]. split; [done|].
  intros s Hspin. split; intros Hopt t Ht.
  - rewrite (Hcut s Hspin), (Hcut t Ht). specialize (Hopt t Ht). lra.
  - specialize (Hopt t Ht). rewrite (Hcut s Hspin), (Hcut t Ht) in Hopt. lra.
Qed.

Lemma C10_witness :
  exists m, max_cut_cost_formulator 2 [[0; 1]; [1; 0]] = Return m /\
    (forall s, SpinAssignment 2 s ->
       cut_value [[0; 1]; [1; 0]] s
       = (total_weight [[0; 1]; [1; 0]] - ising_energy m s) / 2) /\
    (forall s, SpinAssignment 2 s ->
       (forall t, SpinAssignment 2 t -> ising_energy m s <= ising_energy m t)
       <->
       (forall t, SpinAssignment 2 t ->
          cut_value [[0; 1]; [1; 0]] t <= cut_value [[0; 1]; [1; 0]] s)).
Proof.
  apply (C10_energy_and_cut_value 2 [[0; 1]; [1; 0]]).
  split; [reflexivity | repeat constructor].
Defined.

(** ** Running the cells *)

Lemma respects_then (related : Kernel.globals -> Kernel.globals -> Prop)
    (s1 s2 : Kernel.statement) :
  Kernel.respects related s1 -> Kernel.respects related s2 ->
  Kernel.respects related (Kernel.then_ s1 s2).
Proof.
  intros H1 H2 g1 g2 Hrel. unfold Kernel.then_.
  destruct (H1 g1 g2 Hrel) as [Ho Hs].
  destruct (s1 g1) as [o1 g1'], (s1 g2) as [o2 g2']. cbn in Ho, Hs.
  subst o2. destruct o1; [by apply H2 | done].
Qed.

Lemma respects_for_each {I : Type}
    (related : Kernel.globals -> Kernel.globals -> Prop)
    (body : I -> Kernel.statement) (xs : list I) :
  (forall x, Kernel.respects related (body x)) ->
  Kernel.respects related (Kernel.for_each_in body xs).
Proof.
  intros Hbody. induction xs as [|x xs IH]; [by intros g1 g2 Hrel|].
  intros g1 g2 Hrel. cbn [Kernel.for_each_in].
  by apply respects_then.
Qed.

(** [w[i, j] = ...] reads [data] and [w] only. *)
Lemma store_distance_respects (ij : nat * nat) :
  Kernel.respects Kernel.same_points (Kernel.store_distance ij).
Proof.
  destruct ij as [i j]. intros g1 g2 [Hdata Hw].
  unfold Kernel.store_distance, Kernel.assign. rewrite Hdata, Hw.
  destruct (_ ≫= _) as [e|w']; by cbn.
Qed.

(** [h[i] = 0] and [J[(i, j)] = w[i, j]] read [w], [J] and [h] only. *)
Lemma store_field_respects (i : nat) :
  Kernel.respects Kernel.same_weights (Kernel.store_field i).
Proof.
  intros g1 g2 (Hw & HJ & Hh).
  unfold Kernel.store_field, Kernel.assign. rewrite Hh.
  destruct (_ ≫= _) as [e|h']; by cbn.
Qed.

Lemma store_coupling_respects (i j : nat) :
  Kernel.respects Kernel.same_weights (Kernel.store_coupling i j).
Proof.
  intros g1 g2 (Hw & HJ & Hh).
  unfold Kernel.store_coupling, Kernel.assign. rewrite Hw, HJ.
  destruct (_ ≫= _) as [e|J']; by cbn.
Qed.

Lemma store_model_respects (g1 g2 : Kernel.globals) :
  Kernel.same_weights g1 g2 ->
  (Kernel.store_model g1).1 = (Kernel.store_model g2).1 /\
  Kernel.same_weights (Kernel.store_model g1).2 (Kernel.store_model g2).2 /\
  ((Kernel.store_model g1).1 = Kernel.Done ->
   Kernel.model (Kernel.store_model g1).2
   = Kernel.model (Kernel.store_model g2).2).
Proof.
  intros (Hw & HJ & Hh).
  unfold Kernel.store_model, Kernel.assign. rewrite Hh, HJ.
  destruct (_ ≫= _) as [e|m]; by cbn.
Qed.

(** C8: both cells are deterministic.  Cell 2 rebinds [w] before its
    loop, and cell 6 rebinds [J] and [h] before its loops, so what a run
    binds depends on the inputs only: two runs of cell 2 from kernel
    states with the same [n_instances] and [data] end the same way
    (normally, or on the same exception) with [w] bound to the same
    matrix, and two runs of cell 6 from states with the same
    [n_instances] and [w] end the same way with [J] and [h] bound to the
    same dictionaries and, when they end normally, [model] to the same
    model, whatever the two states held under these names before. *)
Theorem C8_cells_are_deterministic (g1 g2 : Kernel.globals) :
  Kernel.n_instances g1 = Kernel.n_instances g2 ->
  (Kernel.data g1 = Kernel.data g2 ->
   (Kernel.run_cell_2 g1).1 = (Kernel.run_cell_2 g2).1 /\
   Kernel.w (Kernel.run_cell_2 g1).2 = Kernel.w (Kernel.run_cell_2 g2).2) /\
  (Kernel.w g1 = Kernel.w g2 ->
   (Kernel.run_cell_6 g1).1 = (Kernel.run_cell_6 g2).1 /\
   Kernel.J (Kernel.run_cell_6 g1).2 = Kernel.J (Kernel.run_cell_6 g2).2 /\
   Kernel.h (Kernel.run_cell_6 g1).2 = Kernel.h (Kernel.run_cell_6 g2).2 /\
   ((Kernel.run_cell_6 g1).1 = Kernel.Done ->
    Kernel.model (Kernel.run_cell_6 g1).2
    = Kernel.model (Kernel.run_cell_6 g2).2)).
Proof.
  intros Hn. split.
  - intros Hdata. unfold Kernel.run_cell_2. rewrite Hn.
    set (n := Kernel.n_instances g2).
    destruct (respects_for_each Kernel.same_points Kernel.store_distance
                (product (range 0 n) (range 0 n)) store_distance_respects
                (Kernel.set_w (zeros n n) g1) (Kernel.set_w (zeros n n) g2))
      as [Ho [_ Hw]]; [by split|].
    by split.
  - intros Hw. unfold Kernel.run_cell_6. rewrite Hn.
    set (n := Kernel.n_instances g2).
    set (loops := Kernel.for_each_in _ _).
    assert (Kernel.respects Kernel.same_weights loops) as Hloops.
    { apply respects_for_each. intros i. apply respects_then.
      - apply store_field_respects.
      - apply respects_for_each, store_coupling_respects. }
    cbn [Kernel.then_ Kernel.assign].
    destruct (Hloops (Kernel.set_h ∅ (Kernel.set_J ∅ g1))
                (Kernel.set_h ∅ (Kernel.set_J ∅ g2)))
      as [Ho Hs]; [by repeat split|].
    unfold Kernel.then_.
    destruct (loops (Kernel.set_h ∅ (Kernel.set_J ∅ g1))) as [o1 g1'],
      (loops (Kernel.set_h ∅ (Kernel.set_J ∅ g2))) as [o2 g2'].
    cbn in Ho, Hs. subst o2. destruct o1 as [|e].
    + destruct (store_model_respects g1' g2' Hs) as (Hom & (_ & HJ & Hh) & Hm).
      done.
    + destruct Hs as (_ & HJ & Hh). by cbn.
Qed.

Lemma C8_witness :
  ((Kernel.run_cell_2 Kernel.fresh).1 = (Kernel.run_cell_2 Kernel.stale).1 /\
   Kernel.w (Kernel.run_cell_2 Kernel.fresh).2
   = Kernel.w (Kernel.run_cell_2 Kernel.stale).2) /\
  ((Kernel.run_cell_6 Kernel.fresh).1 = (Kernel.run_cell_6 Kernel.stale).1 /\
   Kernel.J (Kernel.run_cell_6 Kernel.fresh).2
   = Kernel.J (Kernel.run_cell_6 Kernel.stale).2 /\
   Kernel.h (Kernel.run_cell_6 Kernel.fresh).2
   = Kernel.h (Kernel.run_cell_6 Kernel.stale).2 /\
   ((Kernel.run_cell_6 Kernel.fresh).1 = Kernel.Done ->
    Kernel.model (Kernel.run_cell_6 Kernel.fresh).2
    = Kernel.model (Kernel.run_cell_6 Kernel.stale).2)).
Proof.
  destruct (C8_cells_are_deterministic Kernel.fresh Kernel.stale)
    as [H2 H6]; [reflexivity|].
  split; [apply H2 | apply H6]; reflexivity.
Defined.

(** * Further properties of the cells *)

(** ** When the loops raise *)

(** A loop raises as soon as one of its items makes the body raise from
    every state. *)
Lemma for_each_raises {I S : Type} (body : I -> S -> result S)
    (xs : list I) (x : I) :
  x ∈ xs -> (forall s, exists e, body x s = Raise e) ->
  forall s0, exists e, for_each body xs s0 = Raise e.
Proof.
  intros Hin Hraise. induction xs as [|y xs IH]; intros s0.
  - by apply elem_of_nil in Hin.
  - cbn. destruct (body y s0) as [e|s'] eqn:Hy; [by exists e|]. cbn.
    apply elem_of_cons in Hin. destruct Hin as [->|Hin].
    + destruct (Hraise s0) as [e He]. congruence.
    + by apply IH.
Qed.

(** A loop raises only what its body raises. *)
Lemma for_each_raises_only {I S : Type} (body : I -> S -> result S)
    (P : exception -> Prop) (xs : list I) :
  (forall x s e, body x s = Raise e -> P e) ->
  forall s0 e, for_each body xs s0 = Raise e -> P e.
Proof.
  intros Hbody. induction xs as [|y xs IH]; intros s0 e; [done|].
  cbn. destruct (body y s0) as [e'|s'] eqn:Hy; cbn.
  - intros [= <-]. by eapply Hbody.
  - apply IH.
Qed.

Lemma getitem_raises {A : Type} (a : list A) (i : nat) (e : exception) :
  getitem a i = Raise e -> e = IndexError.
Proof. unfold getitem. destruct (a !! i); congruence. Qed.

Lemma getitem2_outside (a : matrix) (i j : nat) :
  lookup2 a i j = None -> getitem2 a i j = Raise IndexError.
Proof.
  unfold lookup2, getitem2, getitem. destruct (a !! i) as [row|]; [|done].
  cbn. by intros ->.
Qed.

Lemma distance_loop_body_raises (data : matrix) (ij : nat * nat)
    (w : matrix) (e : exception) :
  distance_loop_body data ij w = Raise e -> e = IndexError.
Proof.
  destruct ij as [i j]. unfold distance_loop_body, getitem, setitem2.
  destruct (data !! i); [|cbn; congruence].
  destruct (data !! j); [|cbn; congruence]. cbn.
  destruct (w !! i) as [row|]; [|congruence].
  destruct (row !! j); congruence.
Qed.

(** The cells of cell 2's matrix when [data] has at least [n] points. *)
Lemma distance_matrix_builder_enough_points (n : nat) (data : matrix) :
  (n <= length data)%nat ->
  exists W, distance_matrix_builder n data = Return W /\ shape n n W /\
    forall i j, (i < n)%nat -> (j < n)%nat ->
      exists d_i d_j, data !! i = Some d_i /\ data !! j = Some d_j /\
        lookup2 W i j = Some (norm (sub d_i d_j)).
Proof.
  intros Hlen. unfold distance_matrix_builder.
  destruct (for_each_invariant (distance_loop_body data)
    (fun visited w => shape n n w /\
       forall i j, (i, j) ∈ visited ->
         exists d_i d_j, data !! i = Some d_i /\ data !! j = Some d_j /\
           lookup2 w i j = Some (norm (sub d_i d_j)))
    (product (range 0 n) (range 0 n)) (zeros n n)) as (W & HW & Hs & Hcells).
  - split; [apply shape_zeros|]. intros i j Hin. by apply elem_of_nil in Hin.
  - intros visited [i j] rest w Hxs [Hs Hcells].
    assert ((i, j) ∈ product (range 0 n) (range 0 n)) as Hin.
    { rewrite Hxs. apply elem_of_app. right. constructor. }
    apply elem_of_product in Hin. rewrite !elem_of_range in Hin.
    destruct Hin as [Hi Hj].
    destruct (lookup_lt_is_Some_2 data i) as [d_i Hdi]; [lia|].
    destruct (lookup_lt_is_Some_2 data j) as [d_j Hdj]; [lia|].
    destruct (setitem2_inside n n w i j (norm (sub d_i d_j)) Hs)
      as (w' & Hset & Hs' & Hw'); [lia..|].
    exists w'. split.
    { cbn. unfold getitem. rewrite Hdi, Hdj. cbn. exact Hset. }
    split; [done|]. intros i' j' Hin'. rewrite Hw'.
    case_decide as Heq.
    + destruct Heq as [-> ->]. eauto.
    + apply Hcells.
      apply elem_of_app in Hin'. destruct Hin' as [|Hin']; [done|].
      apply list_elem_of_singleton in Hin'. simplify_eq. tauto.
  - exists W. split; [done|]. split; [done|].
    intros i j Hi Hj. apply Hcells.
    apply elem_of_product. rewrite !elem_of_range. lia.
Qed.

(** With fewer points than [n_instances], cell 2 raises on the first
    index past the end of [data]. *)
Lemma builder_raises_too_few_points (n : nat) (data : matrix) :
  (length data < n)%nat ->
  distance_matrix_builder n data = Raise IndexError.
Proof.
  intros Hlen. unfold distance_matrix_builder.
  destruct (for_each_raises (distance_loop_body data)
    (product (range 0 n) (range 0 n)) (0%nat, length data))
    with (s0 := zeros n n) as [e He].
  - apply elem_of_product. rewrite !elem_of_range. lia.
  - intros w. cbn. unfold getitem.
    rewrite (lookup_ge_None_2 data (length data)) by lia.
    destruct (data !! 0%nat); cbn; eauto.
  - rewrite He. f_equal.
    apply (for_each_raises_only (distance_loop_body data)
             (fun e => e = IndexError)) in He; [done|].
    apply distance_loop_body_raises.
Qed.

(** X1: cell 2 ends normally exactly when [data] holds at least
    [n_instances] points, and then returns a matrix of shape
    [(n_instances, n_instances)]; with fewer points it raises
    [IndexError]. *)
Theorem builder_returns_iff_enough_points (n : nat) (data : matrix) :
  ((n <= length data)%nat ->
   exists W, distance_matrix_builder n data = Return W /\ shape n n W) /\
  ((length data < n)%nat ->
   distance_matrix_builder n data = Raise IndexError).
Proof.
  split.
  - intros Hlen.
    destruct (distance_matrix_builder_enough_points n data Hlen)
      as (W & HW & Hs & _). eauto.
  - apply builder_raises_too_few_points.
Qed.

Lemma builder_returns_iff_enough_points_witness :
  (exists W, distance_matrix_builder 1 [[0; 0]; [3; 4]] = Return W /\
     shape 1 1 W) /\
  distance_matrix_builder 3 [[0; 0]; [3; 4]] = Raise IndexError.
Proof.
  split.
  - apply (builder_returns_iff_enough_points 1 [[0; 0]; [3; 4]]). cbn. lia.
  - apply (builder_returns_iff_enough_points 3 [[0; 0]; [3; 4]]). cbn. lia.
Defined.

Lemma inner_loop_body_raises (w : matrix) (i j : nat)
    (J : gmap (nat * nat) R) (e : exception) :
  inner_loop_body w i j J = Raise e -> e = IndexError.
Proof.
  unfold inner_loop_body, getitem2, getitem.
  destruct (w !! i) as [row|]; [|cbn; congruence]. cbn.
  destruct (row !! j); cbn; congruence.
Qed.

Lemma outer_loop_body_raises (n : nat) (w : matrix) (i : nat)
    (Jh : gmap (nat * nat) R * gmap nat R) (e : exception) :
  outer_loop_body n w i Jh = Raise e -> e = IndexError.
Proof.
  destruct Jh as [J h]. unfold outer_loop_body.
  destruct (for_each (inner_loop_body w i) (range (i + 1) n) J)
    as [e'|J'] eqn:Hinner; cbn; [|done].
  intros [= <-].
  apply (for_each_raises_only (inner_loop_body w i)
           (fun e => e = IndexError)) in Hinner; [done|].
  intros j J0 e0. apply inner_loop_body_raises.
Qed.

(** Cell 6 raises [IndexError] when one of the cells [(i, j)], [i < j < n],
    lies outside [w]. *)
Lemma formulator_raises_outside (n : nat) (w : matrix) (i j : nat) :
  (i < j < n)%nat -> lookup2 w i j = None ->
  max_cut_cost_formulator n w = Raise IndexError.
Proof.
  intros Hij Hnone. unfold max_cut_cost_formulator, couplings_and_fields.
  destruct (for_each_raises (outer_loop_body n w) (range 0 n) i)
    with (s0 := ((∅ : gmap (nat * nat) R), (∅ : gmap nat R))) as [e He].
  - apply elem_of_range. lia.
  - intros [J h]. unfold outer_loop_body.
    destruct (for_each_raises (inner_loop_body w i) (range (i + 1) n) j)
      with (s0 := J) as [e He].
    + apply elem_of_range. lia.
    + intros J0. unfold inner_loop_body.
      rewrite (getitem2_outside w i j Hnone). by exists IndexError.
    + rewrite He. by exists e.
  - rewrite He. cbn. f_equal.
    apply (for_each_raises_only (outer_loop_body n w)
             (fun e => e = IndexError)) in He; [done|].
    apply outer_loop_body_raises.
Qed.

Lemma shape_lookup2_outside (r c : nat) (a : matrix) (i j : nat) :
  shape r c a -> (r <= i)%nat \/ (c <= j)%nat -> lookup2 a i j = None.
Proof.
  intros Hs Hout. unfold lookup2.
  destruct (a !! i) as [row|] eqn:Hrow; [|done]. cbn.
  apply lookup_ge_None_2. rewrite (shape_row r c a i row Hs Hrow).
  destruct Hout as [Hi|Hj]; [|done].
  apply lookup_lt_Some in Hrow. destruct Hs. lia.
Qed.

(** X2: on an array [w] of shape [(r, c)], cell 6 ends normally exactly
    when [n_instances <= 1] (it then reads nothing) or
    [n_instances <= r + 1] and [n_instances <= c]: the last row of an
    [n x n] matrix is never read.  Otherwise it raises [IndexError]. *)
Theorem formulator_returns_iff_large_enough (r c n : nat) (w : matrix) :
  shape r c w ->
  (((n <= 1)%nat \/ ((n <= S r)%nat /\ (n <= c)%nat)) ->
   exists m, max_cut_cost_formulator n w = Return m) /\
  ((2 <= n)%nat -> (S r < n)%nat \/ (c < n)%nat ->
   max_cut_cost_formulator n w = Raise IndexError).
Proof.
  intros Hs. split.
  - intros Hfits.
    destruct (max_cut_cost_formulator_spec n w) as (m & Hm & _); [|eauto].
    intros i j Hij. apply (shape_lookup2 r c); [done|lia..].
  - intros Hn [Hr|Hc].
    + apply (formulator_raises_outside n w r (S r)); [lia|].
      apply (shape_lookup2_outside r c); [done|]. left. lia.
    + apply (formulator_raises_outside n w 0 (Nat.max c 1)); [lia|].
      apply (shape_lookup2_outside r c); [done|]. right. lia.
Qed.

Lemma formulator_returns_iff_large_enough_witness :
  (exists m, max_cut_cost_formulator 3 [[0; 1; 2]; [1; 0; 3]] = Return m) /\
  max_cut_cost_formulator 3 [[0; 1]; [1; 0]] = Raise IndexError.
Proof.
  split.
  - apply (formulator_returns_iff_large_enough 2 3 3 [[0; 1; 2]; [1; 0; 3]]).
    + split; [reflexivity | repeat constructor].
    + right. lia.
  - apply (formulator_returns_iff_large_enough 2 2 3 [[0; 1]; [1; 0]]).
    + split; [reflexivity | repeat constructor].
    + lia.
    + right. lia.
Defined.

(** ** Cell 1 and the matrix of its points *)

Lemma length_class_1 (k : nat) (rand_1 : matrix) :
  uniform_samples k 3 rand_1 -> length (class_1 rand_1) = k.
Proof.
  intros [[Hlen _] _]. unfold class_1, divide. by rewrite length_fmap.
Qed.

Lemma length_class_2 (k : nat) (rand_2 : matrix) :
  uniform_samples k 3 rand_2 -> length (class_2 rand_2) = k.
Proof.
  intros [[Hlen _] _]. unfold class_2, broadcast_add, divide.
  by rewrite !length_fmap.
Qed.

(** A row of samples has three entries in [[0, 1)]. *)
Lemma uniform_samples_row (k : nat) (rand : matrix) (i : nat) (row : vector) :
  uniform_samples k 3 rand -> rand !! i = Some row ->
  exists a b c, row = [a; b; c] /\
    0 <= a < 1 /\ 0 <= b < 1 /\ 0 <= c < 1.
Proof.
  intros [Hs Hall] Hrow.
  pose proof (shape_row k 3 rand i row Hs Hrow) as Hlen.
  rewrite Forall_forall in Hall.
  specialize (Hall row (list_elem_of_lookup_2 _ _ _ Hrow)).
  destruct row as [|a [|b [|c [|? ?]]]]; try done.
  exists a, b, c. split; [done|].
  apply Forall_cons in Hall. destruct Hall as [Ha Hall].
  apply Forall_cons in Hall. destruct Hall as [Hb Hall].
  apply Forall_cons in Hall. by destruct Hall as [Hc _].
Qed.

(** The points of the first class lie in the cube [[0, 0.2)^3], those of
    the second in its copy moved by [(0.6, 0.1, 0.05)]. *)
Lemma class_1_point (k : nat) (rand_1 : matrix) (i : nat) (p : vector) :
  uniform_samples k 3 rand_1 -> class_1 rand_1 !! i = Some p ->
  exists x y z, p = [x; y; z] /\
    0 <= x < 0.2 /\ 0 <= y < 0.2 /\ 0 <= z < 0.2.
Proof.
  intros Hu Hp. unfold class_1, divide in Hp.
  rewrite list_lookup_fmap in Hp.
  destruct (rand_1 !! i) as [row|] eqn:Hrow; [|done].
  destruct (uniform_samples_row k rand_1 i row Hu Hrow)
    as (a & b & c & -> & Ha & Hb & Hc).
  cbn in Hp. injection Hp as <-.
  exists (a / 5), (b / 5), (c / 5). split; [done|]. lra.
Qed.

Lemma class_2_point (k : nat) (rand_2 : matrix) (i : nat) (p : vector) :
  uniform_samples k 3 rand_2 -> class_2 rand_2 !! i = Some p ->
  exists x y z, p = [x; y; z] /\
    0.6 <= x < 0.8 /\ 0.1 <= y < 0.3 /\ 0.05 <= z < 0.25.
Proof.
  intros Hu Hp. unfold class_2, broadcast_add, divide in Hp.
  rewrite !list_lookup_fmap in Hp.
  destruct (rand_2 !! i) as [row|] eqn:Hrow; [|done].
  destruct (uniform_samples_row k rand_2 i row Hu Hrow)
    as (a & b & c & -> & Ha & Hb & Hc).
  cbn in Hp. injection Hp as <-.
  exists (0.6 + a / 5), (0.1 + b / 5), (0.05 + c / 5). split; [done|]. lra.
Qed.

Lemma generated_data_shape (k : nat) (rand_1 rand_2 : matrix) :
  uniform_samples k 3 rand_1 -> uniform_samples k 3 rand_2 ->
  shape (2 * k) 3 (generated_data rand_1 rand_2).
Proof.
  intros H1 H2. split.
  - unfold generated_data, concatenate.
    rewrite length_app, (length_class_1 k), (length_class_2 k) by done. lia.
  - apply Forall_app. split; apply Forall_forall; intros p Hp;
      apply list_elem_of_lookup_1 in Hp; destruct Hp as [i Hp].
    + by destruct (class_1_point k rand_1 i p H1 Hp) as (x & y & z & -> & _).
    + by destruct (class_2_point k rand_2 i p H2 Hp) as (x & y & z & -> & _).
Qed.

(** X3: cell 1 always produces an even number of points, [2 * (n // 2)]
    points of three coordinates; so cell 2 after cell 1 ends normally
    when [n_instances] is even and raises [IndexError] when it is odd,
    whatever the random draws. *)
Theorem cell_2_after_cell_1 (n : nat) (rand_1 rand_2 : matrix) :
  uniform_samples (n / 2) 3 rand_1 -> uniform_samples (n / 2) 3 rand_2 ->
  shape (2 * (n / 2)) 3 (generated_data rand_1 rand_2) /\
  (Nat.Even n ->
   exists W, distance_matrix_builder n (generated_data rand_1 rand_2)
             = Return W /\ shape n n W) /\
  (Nat.Odd n ->
   distance_matrix_builder n (generated_data rand_1 rand_2)
   = Raise IndexError).
Proof.
  intros H1 H2.
  pose proof (generated_data_shape (n / 2) rand_1 rand_2 H1 H2) as Hs.
  split; [done|]. destruct Hs as [Hlen _]. split.
  - intros [m ->].
    destruct (distance_matrix_builder_enough_points (2 * m)
                (generated_data rand_1 rand_2)) as (W & HW & HsW & _);
      [|eauto].
    rewrite Hlen, (Nat.mul_comm 2 m), Nat.div_mul by done. lia.
  - intros [m ->].
    apply builder_raises_too_few_points. rewrite Hlen.
    replace ((2 * m + 1) / 2)%nat with m; [lia|].
    rewrite (Nat.mul_comm 2 m), Nat.div_add_l by done.
    cbn. lia.
Qed.

Lemma cell_2_after_cell_1_witness :
  shape (2 * (3 / 2)) 3
    (generated_data [[0; 0.5; 0.5]] [[0.5; 0; 0.5]]) /\
  (Nat.Even 3 ->
   exists W, distance_matrix_builder 3
               (generated_data [[0; 0.5; 0.5]] [[0.5; 0; 0.5]])
             = Return W /\ shape 3 3 W) /\
  (Nat.Odd 3 ->
   distance_matrix_builder 3
     (generated_data [[0; 0.5; 0.5]] [[0.5; 0; 0.5]])
   = Raise IndexError).
Proof.
  apply (cell_2_after_cell_1 3 [[0; 0.5; 0.5]] [[0.5; 0; 0.5]]).
  - split; [split; [reflexivity | repeat constructor]|].
    repeat constructor; lra.
  - split; [split; [reflexivity | repeat constructor]|].
    repeat constructor; lra.
Defined.

Lemma dot_sub_3 (x1 y1 z1 x2 y2 z2 : R) :
  dot (sub [x1; y1; z1] [x2; y2; z2]) (sub [x1; y1; z1] [x2; y2; z2])
  = (x1 - x2) * (x1 - x2) + (y1 - y2) * (y1 - y2) + (z1 - z2) * (z1 - z2).
Proof. unfold sub. cbn [zip_with]. rewrite !dot_cons. cbn. lra. Qed.

Lemma sqrt_below_04 (x : R) : 0 <= x < 0.16 -> sqrt x < 0.4.
Proof.
  intros Hx. rewrite <- (sqrt_square 0.4) by lra.
  apply sqrt_lt_1_alt. lra.
Qed.

Lemma sqrt_above_04 (x : R) : 0.16 < x -> 0.4 < sqrt x.
Proof.
  intros Hx. rewrite <- (sqrt_square 0.4) at 1 by lra.
  apply sqrt_lt_1_alt. lra.
Qed.

(** Two points whose coordinates differ by less than 0.2 each are closer
    than 0.4; two points whose first coordinates differ by more than 0.4
    are farther apart than 0.4. *)
Lemma norm_sub_close (x1 y1 z1 x2 y2 z2 : R) :
  -0.2 < x1 - x2 < 0.2 -> -0.2 < y1 - y2 < 0.2 -> -0.2 < z1 - z2 < 0.2 ->
  norm (sub [x1; y1; z1] [x2; y2; z2]) < 0.4.
Proof.
  intros Hx Hy Hz. unfold norm. rewrite dot_sub_3.
  assert (forall d, -0.2 < d < 0.2 -> 0 <= d * d < 0.04) as Hsq.
  { intros d Hd. split; nra. }
  apply Hsq in Hx, Hy, Hz. apply sqrt_below_04. lra.
Qed.

Lemma norm_sub_far (x1 y1 z1 x2 y2 z2 : R) :
  0.4 < x1 - x2 \/ 0.4 < x2 - x1 ->
  0.4 < norm (sub [x1; y1; z1] [x2; y2; z2]).
Proof.
  intros Hx. unfold norm. rewrite dot_sub_3.
  assert (0.16 < (x1 - x2) * (x1 - x2)) by (destruct Hx; nra).
  assert (forall d, 0 <= d * d) as Hsq by (intros d; nra).
  pose proof (Hsq (y1 - y2)). pose proof (Hsq (z1 - z2)).
  apply sqrt_above_04. lra.
Qed.

(** Where the points of the two classes sit in [data]. *)
Lemma generated_data_point (k : nat) (rand_1 rand_2 : matrix) (i : nat) :
  uniform_samples k 3 rand_1 -> uniform_samples k 3 rand_2 ->
  (i < 2 * k)%nat ->
  exists x y z, generated_data rand_1 rand_2 !! i = Some [x; y; z] /\
    ((i < k)%nat -> 0 <= x < 0.2 /\ 0 <= y < 0.2 /\ 0 <= z < 0.2) /\
    ((k <= i)%nat -> 0.6 <= x < 0.8 /\ 0.1 <= y < 0.3 /\ 0.05 <= z < 0.25).
Proof.
  intros H1 H2 Hi. unfold generated_data, concatenate.
  destruct (decide (i < k)%nat) as [Hlt|Hge].
  - destruct (lookup_lt_is_Some_2 (class_1 rand_1) i) as [p Hp].
    { by rewrite (length_class_1 k). }
    destruct (class_1_point k rand_1 i p H1 Hp) as (x & y & z & -> & Hb).
    exists x, y, z. split; [|split; [done|lia]].
    rewrite lookup_app_l; [done|]. by rewrite (length_class_1 k).
  - destruct (lookup_lt_is_Some_2 (class_2 rand_2) (i - k)) as [p Hp].
    { rewrite (length_class_2 k) by done. lia. }
    destruct (class_2_point k rand_2 (i - k) p H2 Hp)
      as (x & y & z & -> & Hb).
    exists x, y, z. split; [|split; [lia|done]].
    rewrite lookup_app_r; rewrite (length_class_1 k) by done; [done|lia].
Qed.

(** The colours follow the classes. *)
Lemma colors_lookup (n i : nat) :
  (i < 2 * (n / 2))%nat ->
  colors n !! i
  = Some (if decide (i < n / 2)%nat then "red"%string else "green"%string).
Proof.
  intros Hi. unfold colors. case_decide as Hlt.
  - rewrite lookup_app_l by (by rewrite length_replicate).
    by apply lookup_replicate_2.
  - rewrite lookup_app_r; rewrite length_replicate; [|lia].
    apply lookup_replicate_2. lia.
Qed.

(** The matrix of cell 2 on the points of cell 1: below 0.4 inside a
    class, above 0.4 across the classes. *)
Lemma builder_separates_classes (k : nat) (rand_1 rand_2 : matrix) :
  uniform_samples k 3 rand_1 -> uniform_samples k 3 rand_2 ->
  exists W, distance_matrix_builder (2 * k) (generated_data rand_1 rand_2)
            = Return W /\ shape (2 * k) (2 * k) W /\
    forall i j, (i < 2 * k)%nat -> (j < 2 * k)%nat ->
      (((i < k)%nat <-> (j < k)%nat) -> entry W i j < 0.4) /\
      (~ ((i < k)%nat <-> (j < k)%nat) -> 0.4 < entry W i j).
Proof.
  intros H1 H2.
  destruct (distance_matrix_builder_enough_points (2 * k)
              (generated_data rand_1 rand_2)) as (W & HW & HsW & Hcells).
  { destruct (generated_data_shape k rand_1 rand_2 H1 H2) as [-> _]. lia. }
  exists W. split; [done|]. split; [done|]. intros i j Hi Hj.
  destruct (Hcells i j Hi Hj) as (d_i & d_j & Hdi & Hdj & Hij).
  rewrite (entry_lookup2 W i j _ Hij).
  destruct (generated_data_point k rand_1 rand_2 i H1 H2 Hi)
    as (x1 & y1 & z1 & Hpi & Hlow_i & Hhigh_i).
  destruct (generated_data_point k rand_1 rand_2 j H1 H2 Hj)
    as (x2 & y2 & z2 & Hpj & Hlow_j & Hhigh_j).
  rewrite Hpi in Hdi. rewrite Hpj in Hdj.
  injection Hdi as <-. injection Hdj as <-.
  destruct (decide (i < k)%nat) as [Hik|Hik],
    (decide (j < k)%nat) as [Hjk|Hjk].
  - split; [intros _|tauto].
    specialize (Hlow_i Hik). specialize (Hlow_j Hjk).
    apply norm_sub_close; lra.
  - split; [tauto|intros _].
    specialize (Hlow_i Hik). specialize (Hhigh_j ltac:(lia)).
    apply norm_sub_far. lra.
  - split; [tauto|intros _].
    specialize (Hhigh_i ltac:(lia)). specialize (Hlow_j Hjk).
    apply norm_sub_far. lra.
  - split; [intros _|tauto].
    specialize (Hhigh_i ltac:(lia)). specialize (Hhigh_j ltac:(lia)).
    apply norm_sub_close; lra.
Qed.

Lemma Even_half (n : nat) : Nat.Even n -> n = (2 * (n / 2))%nat.
Proof.
  intros [k ->]. rewrite (Nat.mul_comm 2 k), Nat.div_mul by done. lia.
Qed.

(** X4: whatever the random draws, the matrix of cell 2 separates the two
    classes of cell 1 at the distance 0.4: two points of the same colour
    are closer than 0.4, two points of different colours are farther
    apart than 0.4. *)
Theorem classes_are_separated (n : nat) (rand_1 rand_2 : matrix) :
  Nat.Even n ->
  uniform_samples (n / 2) 3 rand_1 -> uniform_samples (n / 2) 3 rand_2 ->
  exists W, distance_matrix_builder n (generated_data rand_1 rand_2)
            = Return W /\
    forall i j, (i < n)%nat -> (j < n)%nat ->
      (colors n !! i = colors n !! j -> entry W i j < 0.4) /\
      (colors n !! i <> colors n !! j -> 0.4 < entry W i j).
Proof.
  intros Heven H1 H2. pose proof (Even_half n Heven) as Hn.
  destruct (builder_separates_classes (n / 2) rand_1 rand_2 H1 H2)
    as (W & HW & _ & Hsep).
  rewrite <- Hn in HW, Hsep.
  exists W. split; [done|]. intros i j Hi Hj.
  rewrite !colors_lookup by lia.
  destruct (Hsep i j Hi Hj) as [Hsame Hdiff].
  destruct (decide (i < n / 2)%nat), (decide (j < n / 2)%nat).
  - split; [intros _; apply Hsame; tauto | congruence].
  - split; [intros [=] | intros _; apply Hdiff; tauto].
  - split; [intros [=] | intros _; apply Hdiff; tauto].
  - split; [intros _; apply Hsame; tauto | congruence].
Qed.

Lemma classes_are_separated_witness :
  exists W, distance_matrix_builder 2
              (generated_data [[0; 0.5; 0.5]] [[0.5; 0; 0.5]])
            = Return W /\
    forall i j, (i < 2)%nat -> (j < 2)%nat ->
      (colors 2 !! i = colors 2 !! j -> entry W i j < 0.4) /\
      (colors 2 !! i <> colors 2 !! j -> 0.4 < entry W i j).
Proof.
  apply (classes_are_separated 2 [[0; 0.5; 0.5]] [[0.5; 0; 0.5]]).
  - exists 1%nat. reflexivity.
  - split; [split; [reflexivity | repeat constructor]|].
    repeat constructor; lra.
  - split; [split; [reflexivity | repeat constructor]|].
    repeat constructor; lra.
Defined.

(** ** More on sums *)

Lemma sumR_app (xs ys : list R) : sumR (xs ++ ys) = sumR xs + sumR ys.
Proof.
  induction xs as [|x xs IH]; [change (sumR ys = 0 + sumR ys); lra|].
  rewrite <- app_comm_cons, !sumR_cons, IH. lra.
Qed.

Lemma sumR_plus {A : Type} (f g : A -> R) (xs : list A) :
  sumR ((fun x => f x + g x) <$> xs) = sumR (f <$> xs) + sumR (g <$> xs).
Proof.
  induction xs as [|x xs IH]; [cbn; lra|].
  rewrite !fmap_cons, !sumR_cons, IH. lra.
Qed.

Lemma sumR_scal {A : Type} (c : R) (f : A -> R) (xs : list A) :
  sumR ((fun x => c * f x) <$> xs) = c * sumR (f <$> xs).
Proof.
  induction xs as [|x xs IH]; [cbn; lra|].
  rewrite !fmap_cons, !sumR_cons, IH. lra.
Qed.

Lemma sumR_nonneg {A : Type} (f : A -> R) (xs : list A) :
  (forall x, x ∈ xs -> 0 <= f x) -> 0 <= sumR (f <$> xs).
Proof.
  induction xs as [|x xs IH]; intros Hf; [cbn; lra|].
  rewrite fmap_cons, sumR_cons.
  pose proof (Hf x ltac:(constructor)).
  assert (0 <= sumR (f <$> xs)); [|lra].
  apply IH. intros y Hy. apply Hf. by constructor.
Qed.

(** Non-negative terms that sum to at most 0 all vanish. *)
Lemma sumR_nonneg_vanish {A : Type} (f : A -> R) (xs : list A) :
  (forall x, x ∈ xs -> 0 <= f x) -> sumR (f <$> xs) <= 0 ->
  forall x, x ∈ xs -> f x = 0.
Proof.
  induction xs as [|y xs IH]; intros Hf Hsum x Hx.
  - by apply elem_of_nil in Hx.
  - rewrite fmap_cons, sumR_cons in Hsum.
    pose proof (Hf y ltac:(constructor)) as Hy.
    assert (0 <= sumR (f <$> xs)) as Hrest.
    { apply sumR_nonneg. intros z Hz. apply Hf. by constructor. }
    apply elem_of_cons in Hx. destruct Hx as [->|Hx]; [lra|].
    apply IH; [|lra|done]. intros z Hz. apply Hf. by constructor.
Qed.

Lemma sumR_bind {A B : Type} (f : B -> R) (g : A -> list B) (xs : list A) :
  sumR (f <$> (xs ≫= g)) = sumR ((fun x => sumR (f <$> g x)) <$> xs).
Proof.
  induction xs as [|x xs IH]; [done|].
  rewrite bind_cons, fmap_app, sumR_app, fmap_cons, sumR_cons, IH. done.
Qed.

Lemma range_S (a b : nat) : (a <= b)%nat -> range a (S b) = range a b ++ [b].
Proof.
  intros Hab. unfold range.
  replace (S b - a)%nat with (S (b - a)) by lia.
  rewrite seq_S. do 2 f_equal. lia.
Qed.

(** A sum over the pairs [i < j < n] as a sum of sums. *)
Lemma sum_upper_nested (n : nat) (f : nat -> nat -> R) :
  sum_upper n f
  = sumR ((fun i => sumR (f i <$> range (i + 1) n)) <$> range 0 n).
Proof.
  unfold sum_upper, upper_pairs. rewrite sumR_bind.
  apply sumR_ext. intros i _. rewrite sumR_bind.
  rewrite <- (sumR_ext (fun j => f i j + 0)).
  - rewrite sumR_plus, sumR_zero. lra.
  - intros j _. cbn. lra.
Qed.

(** The pairs below [n + 1] are those below [n] and the pairs [(i, n)]. *)
Lemma sum_upper_S (n : nat) (f : nat -> nat -> R) :
  sum_upper (S n) f
  = sum_upper n f + sumR ((fun i => f i n) <$> range 0 n).
Proof.
  rewrite !sum_upper_nested, range_S by lia.
  rewrite fmap_app, sumR_app. cbn [fmap list_fmap].
  replace (range (n + 1) (S n)) with (@nil nat)
    by (unfold range; by replace (S n - (n + 1))%nat with 0%nat by lia).
  cbn [fmap list_fmap sumR foldr]. rewrite <- sumR_plus.
  rewrite Rplus_0_r, Rplus_0_r. apply sumR_ext.
  intros i Hi. apply elem_of_range in Hi.
  rewrite range_S by lia. rewrite fmap_app, sumR_app. cbn. lra.
Qed.

Lemma sum_upper_plus (n : nat) (f g : nat -> nat -> R) :
  sum_upper n (fun i j => f i j + g i j) = sum_upper n f + sum_upper n g.
Proof.
  unfold sum_upper.
  rewrite <- (sumR_plus (fun '(i, j) => f i j) (fun '(i, j) => g i j)).
  apply sumR_ext. by intros [i j] _.
Qed.

Lemma sum_upper_scal (n : nat) (c : R) (f : nat -> nat -> R) :
  sum_upper n (fun i j => c * f i j) = c * sum_upper n f.
Proof.
  unfold sum_upper. rewrite <- (sumR_scal c (fun '(i, j) => f i j)).
  apply sumR_ext. by intros [i j] _.
Qed.

Lemma sum_upper_nonneg (n : nat) (f : nat -> nat -> R) :
  (forall i j, (i < j < n)%nat -> 0 <= f i j) -> 0 <= sum_upper n f.
Proof.
  intros Hf. unfold sum_upper. apply sumR_nonneg.
  intros [i j] Hin. apply Hf. by apply elem_of_upper_pairs.
Qed.

Lemma sum_upper_nonneg_vanish (n : nat) (f : nat -> nat -> R) :
  (forall i j, (i < j < n)%nat -> 0 <= f i j) -> sum_upper n f <= 0 ->
  forall i j, (i < j < n)%nat -> f i j = 0.
Proof.
  intros Hf Hsum i j Hij.
  assert (forall p, p ∈ upper_pairs n -> 0 <= (let '(i, j) := p in f i j))
    as Hf'.
  { intros [a b] Hin. apply Hf. by apply elem_of_upper_pairs. }
  apply elem_of_upper_pairs in Hij.
  exact (sumR_nonneg_vanish (fun '(i, j) => f i j) (upper_pairs n)
           Hf' Hsum (i, j) Hij).
Qed.

(** The sum of the products of all pairs: half of the square of the sum
    minus the sum of the squares. *)
Lemma sum_upper_products (n : nat) (x : nat -> R) :
  sum_upper n (fun i j => x i * x j)
  = (sumR (x <$> range 0 n) * sumR (x <$> range 0 n)
     - sumR ((fun i => x i * x i) <$> range 0 n)) / 2.
Proof.
  induction n as [|n IH].
  - cbn. lra.
  - rewrite sum_upper_S, IH, range_S by lia.
    rewrite !fmap_app, !sumR_app. cbn [fmap list_fmap sumR foldr].
    rewrite (sumR_ext (fun i => x i * x n) (fun i => x n * x i))
      by (intros; lra).
    rewrite sumR_scal. lra.
Qed.

(** ** The class partition is the ground state *)

(** Weights below a threshold [T] inside the classes and above it across
    them, and two classes of the same size: the labelling [c] by class
    has the least energy, and a labelling [x] with as little energy
    agrees with [c] on every pair, up to the sign. *)
Lemma separated_energy (n : nat) (T : R) (f : nat -> nat -> R)
    (x c : nat -> R) :
  0 <= T ->
  (forall i, (i < n)%nat -> x i = 1 \/ x i = -1) ->
  (forall i, (i < n)%nat -> c i = 1 \/ c i = -1) ->
  sumR (c <$> range 0 n) = 0 ->
  (forall i j, (i < j < n)%nat ->
     (c i = c j -> f i j < T) /\ (c i <> c j -> T < f i j)) ->
  sum_upper n (fun i j => f i j * c i * c j)
  <= sum_upper n (fun i j => f i j * x i * x j) /\
  (sum_upper n (fun i j => f i j * x i * x j)
   <= sum_upper n (fun i j => f i j * c i * c j) ->
   forall i j, (i < j < n)%nat -> x i * x j = c i * c j).
Proof.
  intros HT Hx Hc Hbalanced Hsep.
  set (D := sum_upper n
              (fun i j => (f i j - T) * (x i * x j - c i * c j))).
  set (Sx := sumR (x <$> range 0 n)).
  assert (sum_upper n (fun i j => f i j * x i * x j)
          = sum_upper n (fun i j => f i j * c i * c j)
            + T * (Sx * Sx / 2) + D) as Heq.
  { assert (sum_upper n (fun i j => x i * x j)
            - sum_upper n (fun i j => c i * c j) = Sx * Sx / 2) as Hpairs.
    { rewrite !sum_upper_products, Hbalanced. fold Sx.
      rewrite (sumR_ext (fun i => x i * x i) (fun i => c i * c i)); [lra|].
      intros i Hi. apply elem_of_range in Hi.
      destruct (Hx i ltac:(lia)) as [Hxi|Hxi],
        (Hc i ltac:(lia)) as [Hci|Hci]; rewrite Hxi, Hci; lra. }
    rewrite (sum_upper_ext n (fun i j => f i j * x i * x j)
               (fun i j => f i j * c i * c j
                           + (T * (x i * x j)
                              + (- T * (c i * c j)
                                 + (f i j - T) * (x i * x j - c i * c j)))))
      by (intros; ring).
    rewrite (sum_upper_plus n (fun i j => f i j * c i * c j)).
    rewrite (sum_upper_plus n (fun i j => T * (x i * x j))).
    rewrite (sum_upper_plus n (fun i j => - T * (c i * c j))).
    rewrite (sum_upper_scal n T (fun i j => x i * x j)).
    rewrite (sum_upper_scal n (- T) (fun i j => c i * c j)).
    fold D.
    replace (sum_upper n (fun i j => x i * x j))
      with (sum_upper n (fun i j => c i * c j) + Sx * Sx / 2) by lra.
    ring. }
  assert (forall i j, (i < j < n)%nat ->
            0 <= (f i j - T) * (x i * x j - c i * c j)) as Hterm.
  { intros i j Hij. destruct (Hsep i j Hij) as [Hsame Hdiff].
    destruct (Hx i ltac:(lia)) as [Hxi|Hxi],
      (Hx j ltac:(lia)) as [Hxj|Hxj],
      (Hc i ltac:(lia)) as [Hci|Hci],
      (Hc j ltac:(lia)) as [Hcj|Hcj];
      rewrite Hxi, Hxj; rewrite Hci, Hcj in *;
      first [ assert (f i j < T) by (apply Hsame; lra); nra
            | assert (T < f i j) by (apply Hdiff; lra); nra ]. }
  assert (0 <= D) as HD by (by apply sum_upper_nonneg).
  assert (0 <= T * (Sx * Sx / 2)) as HS by nra.
  split; [lra|].
  intros Hle i j Hij. destruct (Hsep i j Hij) as [Hsame Hdiff].
  assert ((f i j - T) * (x i * x j - c i * c j) = 0) as Hzero.
  { apply (sum_upper_nonneg_vanish n
             (fun i j => (f i j - T) * (x i * x j - c i * c j)));
      [done| fold D; lra | done]. }
  destruct (Req_dec (c i) (c j)) as [Heqc|Hnec].
  - specialize (Hsame Heqc). nra.
  - specialize (Hdiff Hnec). nra.
Qed.

Lemma sumR_const {A : Type} (a : R) (xs : list A) :
  sumR ((fun _ => a) <$> xs) = INR (length xs) * a.
Proof.
  induction xs as [|x xs IH]; [cbn; lra|].
  rewrite fmap_cons, sumR_cons, IH. cbn [length]. rewrite S_INR. lra.
Qed.

Lemma length_class_assignment (n : nat) :
  length (class_assignment n) = (2 * (n / 2))%nat.
Proof.
  unfold class_assignment, colors.
  rewrite length_fmap, length_app, !length_replicate. lia.
Qed.

Lemma spin_at_class_assignment (n i : nat) :
  (i < 2 * (n / 2))%nat ->
  spin_at (class_assignment n) i
  = if decide (i < n / 2)%nat then 1%Z else (-1)%Z.
Proof.
  intros Hi. unfold spin_at, class_assignment.
  rewrite list_lookup_fmap, colors_lookup by done.
  by case_decide.
Qed.

Lemma class_assignment_spins (n : nat) :
  Nat.Even n -> SpinAssignment n (class_assignment n).
Proof.
  intros Heven. pose proof (Even_half n Heven) as Hn. split.
  - rewrite length_class_assignment. lia.
  - unfold class_assignment. apply Forall_fmap, Forall_forall.
    intros c _. cbn. destruct (String.eqb c "red"); auto.
Qed.

(** The two classes have the same size: the spins of the class
    assignment sum to 0. *)
Lemma class_assignment_balanced (k : nat) :
  sumR ((fun i => spin (class_assignment (2 * k)) i) <$> range 0 (2 * k)) = 0.
Proof.
  assert ((2 * k / 2)%nat = k) as Hk
    by (by rewrite (Nat.mul_comm 2 k), Nat.div_mul).
  unfold range. rewrite Nat.sub_0_r.
  assert (seq 0 (2 * k) = seq 0 k ++ seq (0 + k) k) as ->.
  { replace (2 * k)%nat with (k + k)%nat by lia. apply seq_app. }
  rewrite fmap_app, sumR_app.
  rewrite (sumR_ext _ (fun _ => 1) (seq 0 k)).
  2:{ intros i Hi. apply elem_of_seq in Hi. unfold spin.
      rewrite spin_at_class_assignment, Hk by (rewrite Hk; lia).
      by rewrite decide_True by lia. }
  rewrite (sumR_ext _ (fun _ => -1) (seq (0 + k) k)).
  2:{ intros i Hi. apply elem_of_seq in Hi. unfold spin.
      rewrite spin_at_class_assignment, Hk by (rewrite Hk; lia).
      by rewrite decide_False by lia. }
  rewrite !sumR_const, !length_seq. lra.
Qed.

(** Two lists of the same length with the same spin at every index are
    equal. *)
Lemma spin_at_ext (s t : list Z) :
  length s = length t ->
  (forall i, (i < length s)%nat -> spin_at s i = spin_at t i) -> s = t.
Proof.
  intros Hlen Hspin. apply list_eq. intros i.
  destruct (decide (i < length s)%nat) as [Hi|Hi].
  - specialize (Hspin i Hi). unfold spin_at in Hspin.
    destruct (lookup_lt_is_Some_2 s i Hi) as [a Ha].
    destruct (lookup_lt_is_Some_2 t i) as [b Hb]; [lia|].
    rewrite Ha, Hb in *. cbn in Hspin. by subst.
  - rewrite !lookup_ge_None_2; [done|lia..].
Qed.

Lemma spin_values (n : nat) (s : list Z) (i : nat) :
  SpinAssignment n s -> (i < n)%nat -> spin s i = 1 \/ spin s i = -1.
Proof.
  intros Hs Hi. unfold spin.
  destruct (SpinAssignment_spin_at n s i Hs Hi) as [-> | ->]; auto.
Qed.

(** X5: whatever the random draws of cell 1 (for an even [n_instances]),
    the assignment that separates the red from the green points has the
    least energy in the model of cell 6, and the only spin assignments
    with that energy are this one and its flip: the ground state of the
    model is the clustering. *)
Theorem class_partition_is_the_ground_state (n : nat)
    (rand_1 rand_2 : matrix) :
  Nat.Even n ->
  uniform_samples (n / 2) 3 rand_1 -> uniform_samples (n / 2) 3 rand_2 ->
  exists W m,
    distance_matrix_builder n (generated_data rand_1 rand_2) = Return W /\
    max_cut_cost_formulator n W = Return m /\
    SpinAssignment n (class_assignment n) /\
    forall s, SpinAssignment n s ->
      ising_energy m (class_assignment n) <= ising_energy m s /\
      (ising_energy m s <= ising_energy m (class_assignment n) ->
       s = class_assignment n \/ s = flip (class_assignment n)).
Proof.
  intros Heven H1 H2.
  pose proof (class_assignment_spins n Heven) as Hclass.
  destruct Heven as [k ->].
  assert ((2 * k / 2)%nat = k) as Hk
    by (by rewrite (Nat.mul_comm 2 k), Nat.div_mul).
  rewrite Hk in H1, H2.
  destruct (builder_separates_classes k rand_1 rand_2 H1 H2)
    as (W & HW & HsW & Hsep).
  destruct (max_cut_cost_formulator_spec (2 * k) W
              (shape_readable (2 * k) W HsW)) as (m & Hm & HJ & _).
  exists W, m. split; [done|]. split; [done|]. split; [done|].
  intros s Hs.
  rewrite (formulated_energy (2 * k) W m s HsW (proj1 Hs) HJ).
  rewrite (formulated_energy (2 * k) W m (class_assignment (2 * k)) HsW
             (proj1 Hclass) HJ).
  assert (forall i, (i < 2 * k)%nat ->
            spin (class_assignment (2 * k)) i
            = if decide (i < k)%nat then 1 else -1) as Hc.
  { intros i Hi. unfold spin.
    rewrite spin_at_class_assignment, Hk by (rewrite Hk; lia).
    by case_decide. }
  destruct (separated_energy (2 * k) 0.4 (entry W) (spin s)
              (spin (class_assignment (2 * k)))) as [Hmin Huniq].
  - lra.
  - intros i Hi. by apply (spin_values (2 * k)).
  - intros i Hi. by apply (spin_values (2 * k)).
  - apply class_assignment_balanced.
  - intros i j Hij. rewrite !Hc by lia.
    destruct (Hsep i j ltac:(lia) ltac:(lia)) as [Hsame Hdiff].
    destruct (decide (i < k)%nat), (decide (j < k)%nat).
    + split; [intros _; apply Hsame; tauto | lra].
    + split; [lra | intros _; apply Hdiff; tauto].
    + split; [lra | intros _; apply Hdiff; tauto].
    + split; [intros _; apply Hsame; tauto | lra].
  - split; [done|]. intros Hle. specialize (Huniq Hle).
    destruct k as [|k].
    { left. destruct Hs as [Hlen _], Hclass as [Hlen' _].
      destruct s; [|done]. by destruct (class_assignment (2 * 0)). }
    assert (forall j, (0 < j < 2 * S k)%nat ->
              spin s 0 * spin s j = spin (class_assignment (2 * S k)) j)
      as Hpair.
    { intros j Hj. rewrite (Huniq 0%nat j) by lia.
      rewrite (Hc 0%nat) by lia. rewrite decide_True by lia. lra. }
    assert (spin (class_assignment (2 * S k)) 0 = 1) as Hc0.
    { rewrite Hc by lia. by rewrite decide_True by lia. }
    destruct (spin_values (2 * S k) s 0 Hs ltac:(lia)) as [Hs0|Hs0].
    + left. apply spin_at_ext.
      { by rewrite (proj1 Hs), (proj1 Hclass). }
      intros i Hi. rewrite (proj1 Hs) in Hi. apply eq_IZR. fold (spin s i).
      fold (spin (class_assignment (2 * S k)) i).
      destruct (decide (i = 0%nat)) as [->|Hne]; [lra|].
      rewrite <- (Hpair i) by lia. rewrite Hs0. lra.
    + right. apply spin_at_ext.
      { unfold flip. by rewrite length_fmap, (proj1 Hs), (proj1 Hclass). }
      intros i Hi. rewrite (proj1 Hs) in Hi. rewrite spin_at_flip.
      apply eq_IZR. rewrite opp_IZR. fold (spin s i).
      fold (spin (class_assignment (2 * S k)) i).
      destruct (decide (i = 0%nat)) as [->|Hne]; [lra|].
      rewrite <- (Hpair i) by lia. rewrite Hs0. lra.
Qed.

Lemma class_partition_is_the_ground_state_witness :
  exists W m,
    distance_matrix_builder 2
      (generated_data [[0; 0.5; 0.5]] [[0.5; 0; 0.5]]) = Return W /\
    max_cut_cost_formulator 2 W = Return m /\
    SpinAssignment 2 (class_assignment 2) /\
    forall s, SpinAssignment 2 s ->
      ising_energy m (class_assignment 2) <= ising_energy m s /\
      (ising_energy m s <= ising_energy m (class_assignment 2) ->
       s = class_assignment 2 \/ s = flip (class_assignment 2)).
Proof.
  apply (class_partition_is_the_ground_state 2
           [[0; 0.5; 0.5]] [[0.5; 0; 0.5]]).
  - exists 1%nat. reflexivity.
  - split; [split; [reflexivity | repeat constructor]|].
    repeat constructor; lra.
  - split; [split; [reflexivity | repeat constructor]|].
    repeat constructor; lra.
Defined.

(** ** More on the distance matrix *)

(** Two arrays of one shape with the same cells are equal. *)
Lemma matrix_ext (n m : nat) (a b : matrix) :
  shape n m a -> shape n m b ->
  (forall i j, (i < n)%nat -> (j < m)%nat -> lookup2 a i j = lookup2 b i j) ->
  a = b.
Proof.
  intros Ha Hb Hcells. apply list_eq. intros i.
  destruct (decide (i < n)%nat) as [Hi|Hi].
  - destruct (lookup_lt_is_Some_2 a i) as [ra Hra]; [destruct Ha; lia|].
    destruct (lookup_lt_is_Some_2 b i) as [rb Hrb]; [destruct Hb; lia|].
    rewrite Hra, Hrb. f_equal. apply list_eq. intros j.
    destruct (decide (j < m)%nat) as [Hj|Hj].
    + specialize (Hcells i j Hi Hj). unfold lookup2 in Hcells.
      by rewrite Hra, Hrb in Hcells.
    + rewrite !lookup_ge_None_2; [done|..].
      * rewrite (shape_row n m b i rb); [lia|done..].
      * rewrite (shape_row n m a i ra); [lia|done..].
  - rewrite !lookup_ge_None_2; [done|destruct Hb; lia|destruct Ha; lia].
Qed.

(** X7: cell 2 looks at the first [n_instances] points only: points that
    [data] holds beyond them do not change the matrix. *)
Theorem builder_ignores_further_points (n : nat) (data : matrix) :
  (n <= length data)%nat ->
  exists W, distance_matrix_builder n data = Return W /\
    distance_matrix_builder n (take n data) = Return W.
Proof.
  intros Hlen.
  destruct (distance_matrix_builder_enough_points n data Hlen)
    as (W & HW & Hs & Hcells).
  destruct (distance_matrix_builder_enough_points n (take n data))
    as (W' & HW' & Hs' & Hcells'); [by rewrite length_take_le|].
  exists W. split; [done|]. rewrite HW'. f_equal.
  apply (matrix_ext n n); [done..|]. intros i j Hi Hj.
  destruct (Hcells i j Hi Hj) as (d_i & d_j & Hdi & Hdj & ->).
  destruct (Hcells' i j Hi Hj) as (d_i' & d_j' & Hdi' & Hdj' & ->).
  rewrite lookup_take_lt in Hdi', Hdj' by done. congruence.
Qed.

Lemma builder_ignores_further_points_witness :
  exists W, distance_matrix_builder 1 [[0; 0]; [3; 4]] = Return W /\
    distance_matrix_builder 1 (take 1 [[0; 0]; [3; 4]]) = Return W.
Proof.
  apply (builder_ignores_further_points 1 [[0; 0]; [3; 4]]). cbn. lia.
Defined.

(** ** The model as a graph *)

Lemma length_bind_pair (i : nat) (js : list nat) :
  length (js ≫= fun j => [(i, j)]) = length js.
Proof. induction js as [|j js IH]; [done|]. rewrite bind_cons. cbn. by rewrite IH. Qed.

Lemma length_pairs_from (a n : nat) :
  (2 * length (seq a n ≫= fun i =>
                 seq (i + 1) (a + n - (i + 1)) ≫= fun j => [(i, j)])
   = n * (n - 1))%nat.
Proof.
  revert a. induction n as [|n IH]; intros a; [done|].
  cbn [seq]. rewrite bind_cons, length_app, length_bind_pair, length_seq.
  specialize (IH (S a)).
  replace (S a + n)%nat with (a + S n)%nat in IH by lia.
  destruct n; nia.
Qed.

(** There are [n (n - 1) / 2] pairs [i < j < n], each listed once. *)
Lemma length_upper_pairs (n : nat) :
  (2 * length (upper_pairs n) = n * (n - 1))%nat.
Proof.
  unfold upper_pairs, range. rewrite Nat.sub_0_r.
  rewrite <- (length_pairs_from 0 n). do 2 f_equal.
Qed.

Lemma NoDup_upper_pairs (n : nat) : NoDup (upper_pairs n).
Proof.
  unfold upper_pairs. apply NoDup_bind.
  - intros i1 i2 [a b] _ _ H1 H2.
    apply list_elem_of_bind in H1, H2.
    destruct H1 as (j1 & H1 & _), H2 as (j2 & H2 & _).
    apply list_elem_of_singleton in H1, H2. congruence.
  - intros i _. apply NoDup_bind.
    + intros j1 j2 [a b] _ _ H1 H2.
      apply list_elem_of_singleton in H1, H2. congruence.
    + intros j _. apply NoDup_singleton.
    + apply NoDup_seq.
  - apply NoDup_seq.
Qed.

(** X8: the model of cell 6 is the complete graph on [n_instances]
    nodes: it has one field per node and one coupling per pair of nodes,
    [n (n - 1) / 2] couplings in all, also when some weights are 0. *)
Theorem model_is_a_complete_graph (n : nat) (w : matrix) :
  shape n n w ->
  exists m, max_cut_cost_formulator n w = Return m /\
    size (linear m) = n /\
    (2 * size (quadratic m) = n * (n - 1))%nat.
Proof.
  intros Hs.
  destruct (max_cut_cost_formulator_spec n w (shape_readable n w Hs))
    as (m & Hm & HJ & Hh & _).
  exists m. split; [done|]. split.
  - rewrite <- size_dom.
    assert (dom (linear m) = list_to_set (seq 0 n)) as ->.
    { apply set_eq. intros i.
      rewrite elem_of_dom, Hh, elem_of_list_to_set, elem_of_seq.
      case_decide; split; intros Hin; try done; try lia.
      all: by destruct Hin. }
    by rewrite size_list_to_set, length_seq by apply NoDup_seq.
  - rewrite <- size_dom.
    assert (dom (quadratic m) = list_to_set (upper_pairs n)) as ->.
    { apply set_eq. intros [i j].
      rewrite elem_of_dom, HJ, elem_of_list_to_set, elem_of_upper_pairs.
      case_decide as Hij; split; intros Hin; try done.
      all: first [ apply (shape_lookup2 n n); [done|lia..]
                 | by destruct Hin ]. }
    rewrite size_list_to_set by apply NoDup_upper_pairs.
    apply length_upper_pairs.
Qed.

Lemma model_is_a_complete_graph_witness :
  exists m, max_cut_cost_formulator 2 [[0; 0]; [0; 0]] = Return m /\
    size (linear m) = 2%nat /\
    (2 * size (quadratic m) = 2 * (2 - 1))%nat.
Proof.
  apply (model_is_a_complete_graph 2 [[0; 0]; [0; 0]]).
  split; [reflexivity | repeat constructor].
Defined.

(** ** The symmetry of the model *)

Lemma spin_flip (s : list Z) (i : nat) : spin (flip s) i = - spin s i.
Proof. unfold spin. by rewrite spin_at_flip, opp_IZR. Qed.

(** X9: because cell 6 sets every field [h[i]] to 0, the model does not
    tell a spin assignment from its flip: both evaluate to the same
    energy. *)
Theorem model_energy_is_flip_invariant (n : nat) (w : matrix) :
  shape n n w ->
  exists m, max_cut_cost_formulator n w = Return m /\
    forall s, evaluate m (flip s) + offset m = evaluate m s + offset m.
Proof.
  intros Hs.
  destruct (max_cut_cost_formulator_spec n w (shape_readable n w Hs))
    as (m & Hm & _ & Hh & _).
  exists m. split; [done|]. intros s. unfold evaluate.
  rewrite !(formulated_field_energy n m) by done.
  unfold ising_energy, flip. rewrite length_fmap. fold (flip s).
  rewrite (sum_upper_ext _ _
             (fun i j => default 0 (quadratic m !! (i, j))
                         * spin s i * spin s j)); [done|].
  intros i j _. rewrite !spin_flip. ring.
Qed.

Lemma model_energy_is_flip_invariant_witness :
  exists m, max_cut_cost_formulator 2 [[0; 1]; [1; 0]] = Return m /\
    forall s, evaluate m (flip s) + offset m = evaluate m s + offset m.
Proof.
  apply (model_energy_is_flip_invariant 2 [[0; 1]; [1; 0]]).
  split; [reflexivity | repeat constructor].
Defined.

(** ** The cells in sequence *)

Lemma set_w_bound (g : Kernel.globals) (w0 : matrix) :
  Kernel.w g = Some w0 -> Kernel.set_w w0 g = g.
Proof. destruct g. cbn. by intros ->. Qed.

Lemma setitem2_shape (n m : nat) (a a' : matrix) (i j : nat) (v : R) :
  shape n m a -> setitem2 a i j v = Return a' -> shape n m a'.
Proof.
  intros Hs. unfold setitem2.
  destruct (a !! i) as [row|] eqn:Hrow; [|done].
  destruct (row !! j) as [x|] eqn:Hx; [|done]. intros [= <-].
  pose proof (shape_row n m a i row Hs Hrow) as Hlen.
  destruct Hs as [Hn Hm]. split; [by rewrite length_insert|].
  apply Forall_insert; [done|]. by rewrite length_insert.
Qed.

(** The loop of cell 2 over the kernel's [w] does what the loop over a
    local matrix does; when it raises, [w] stays bound to the matrix as
    far as it was filled. *)
Lemma store_distance_loop (xs : list (nat * nat)) (g : Kernel.globals)
    (w0 : matrix) :
  Kernel.w g = Some w0 ->
  match for_each (distance_loop_body (Kernel.data g)) xs w0 with
  | Return W =>
      Kernel.for_each_in Kernel.store_distance xs g
      = (Kernel.Done, Kernel.set_w W g)
  | Raise e =>
      exists W', Kernel.for_each_in Kernel.store_distance xs g
                 = (Kernel.Raised e, Kernel.set_w W' g) /\
        forall n m, shape n m w0 -> shape n m W'
  end.
Proof.
  revert g w0. induction xs as [|[i j] xs IH]; intros g w0 Hw.
  { cbn. by rewrite set_w_bound. }
  cbn [for_each Kernel.for_each_in]. unfold Kernel.then_.
  assert (Kernel.store_distance (i, j) g
          = match distance_loop_body (Kernel.data g) (i, j) w0 with
            | Return w1 => (Kernel.Done, Kernel.set_w w1 g)
            | Raise e => (Kernel.Raised e, g)
            end) as ->.
  { unfold Kernel.store_distance, Kernel.assign, distance_loop_body.
    rewrite Hw.
    destruct (getitem (Kernel.data g) i) as [e|di]; [done|].
    by destruct (getitem (Kernel.data g) j) as [e|dj]. }
  destruct (distance_loop_body (Kernel.data g) (i, j) w0) as [e|w1] eqn:Hbody.
  - cbn. exists w0. by rewrite set_w_bound.
  - cbn. specialize (IH (Kernel.set_w w1 g) w1 eq_refl).
    change (Kernel.data (Kernel.set_w w1 g)) with (Kernel.data g) in IH.
    destruct (for_each (distance_loop_body (Kernel.data g)) xs w1) as [e|W].
    + destruct IH as (W' & -> & Hshape). exists W'. split; [done|].
      intros n m Hs. apply Hshape.
      unfold distance_loop_body in Hbody.
      destruct (getitem (Kernel.data g) i) as [?|di]; [done|].
      destruct (getitem (Kernel.data g) j) as [?|dj]; [done|].
      cbn in Hbody. by apply (setitem2_shape n m w0 w1 i j _ Hs Hbody).
    + by rewrite IH.
Qed.

Lemma store_coupling_loop (W : matrix) (i : nat) (xs : list nat)
    (g : Kernel.globals) (J0 J' : gmap (nat * nat) R) :
  Kernel.w g = Some W -> Kernel.J g = Some J0 ->
  for_each (inner_loop_body W i) xs J0 = Return J' ->
  Kernel.for_each_in (Kernel.store_coupling i) xs g
  = (Kernel.Done, Kernel.set_J J' g).
Proof.
  revert g J0. induction xs as [|j xs IH]; intros g J0 Hw HJ Hloop.
  { cbn in *. injection Hloop as <-. destruct g. cbn in *. by subst. }
  cbn [for_each] in Hloop. cbn [Kernel.for_each_in]. unfold Kernel.then_.
  destruct (inner_loop_body W i j J0) as [e|J1] eqn:Hbody; [done|].
  cbn in Hloop.
  assert (Kernel.store_coupling i j g = (Kernel.Done, Kernel.set_J J1 g))
    as ->.
  { unfold Kernel.store_coupling, Kernel.assign. rewrite Hw, HJ. cbn.
    unfold inner_loop_body in Hbody.
    destruct (getitem2 W i j) as [e|wij]; [done|].
    cbn in *. by injection Hbody as <-. }
  by rewrite (IH (Kernel.set_J J1 g) J1).
Qed.

Lemma store_field_loop (n : nat) (W : matrix) (xs : list nat)
    (g : Kernel.globals) (J0 J' : gmap (nat * nat) R)
    (h0 h' : gmap nat R) :
  Kernel.w g = Some W -> Kernel.J g = Some J0 -> Kernel.h g = Some h0 ->
  for_each (outer_loop_body n W) xs (J0, h0) = Return (J', h') ->
  Kernel.for_each_in
    (fun i => Kernel.then_ (Kernel.store_field i)
                (Kernel.for_each_in (Kernel.store_coupling i)
                   (range (i + 1) n))) xs g
  = (Kernel.Done, Kernel.set_h h' (Kernel.set_J J' g)).
Proof.
  revert g J0 h0. induction xs as [|i xs IH]; intros g J0 h0 Hw HJ Hh Hloop.
  { cbn in *. injection Hloop as <- <-. destruct g. cbn in *. by subst. }
  cbn [for_each] in Hloop. cbn [Kernel.for_each_in].
  unfold Kernel.then_ at 1.
  destruct (outer_loop_body n W i (J0, h0)) as [e|[J1 h1]] eqn:Hbody;
    [done|].
  cbn in Hloop. unfold outer_loop_body in Hbody.
  destruct (for_each (inner_loop_body W i) (range (i + 1) n) J0)
    as [e|J1'] eqn:Hinner; [done|].
  cbn in Hbody. injection Hbody as <- <-.
  unfold Kernel.then_ at 1.
  assert (Kernel.store_field i g
          = (Kernel.Done, Kernel.set_h (<[i := 0]> h0) g)) as ->.
  { unfold Kernel.store_field, Kernel.assign. by rewrite Hh. }
  rewrite (store_coupling_loop W i _ _ J0 J1'); [|done..].
  rewrite (IH _ J1' (<[i := 0]> h0)); done.
Qed.

Lemma then_done (s1 s2 : Kernel.statement) (g g' : Kernel.globals) :
  s1 g = (Kernel.Done, g') -> Kernel.then_ s1 s2 g = s2 g'.
Proof. unfold Kernel.then_. by intros ->. Qed.

(** Cell 6 on a bound [w] binds what [max_cut_cost_formulator] returns. *)
Lemma run_cell_6_returns (g : Kernel.globals) (W : matrix)
    (m : BinaryQuadraticModel) :
  Kernel.w g = Some W ->
  max_cut_cost_formulator (Kernel.n_instances g) W = Return m ->
  Kernel.run_cell_6 g
  = (Kernel.Done,
     Kernel.set_model m
       (Kernel.set_h (linear m) (Kernel.set_J (quadratic m) g))).
Proof.
  intros Hw Hm. unfold max_cut_cost_formulator in Hm.
  destruct (couplings_and_fields (Kernel.n_instances g) W)
    as [e|[J' h']] eqn:Hloops; [done|].
  cbn in Hm. injection Hm as <-. cbn [linear quadratic].
  unfold Kernel.run_cell_6.
  rewrite (then_done _ _ g (Kernel.set_h ∅ (Kernel.set_J ∅ g)))
    by reflexivity.
  rewrite (then_done _ _ _
             (Kernel.set_h h' (Kernel.set_J J'
                (Kernel.set_h ∅ (Kernel.set_J ∅ g)))))
    by (by apply (store_field_loop _ W _ _ ∅ J' ∅ h')).
  reflexivity.
Qed.

(** X10: how the two cells follow each other.  When [data] holds at
    least [n_instances] points, cell 2 ends normally and cell 6 after it
    ends normally and binds [J] to the upper triangle of the [w] of
    cell 2: [J[(i, j)] = w[i, j]] for [i < j < n_instances], no other
    key.  With fewer points cell 2 raises [IndexError] and leaves [w]
    bound to an [n x n] matrix (filled as far as the loop came).  In a
    kernel where [w] is not bound, cell 6 raises [NameError] when
    [n_instances >= 2], but ends normally, without couplings, when
    [n_instances <= 1]: it then never evaluates [w]. *)
Theorem cell_6_after_cell_2 (g : Kernel.globals) :
  ((Kernel.n_instances g <= length (Kernel.data g))%nat ->
   exists W g2 g6 J0,
     Kernel.run_cell_2 g = (Kernel.Done, g2) /\ Kernel.w g2 = Some W /\
     Kernel.run_cell_6 g2 = (Kernel.Done, g6) /\ Kernel.J g6 = Some J0 /\
     forall i j,
       J0 !! (i, j)
       = if decide (i < j < Kernel.n_instances g)%nat
         then lookup2 W i j else None) /\
  ((length (Kernel.data g) < Kernel.n_instances g)%nat ->
   exists g2 W,
     Kernel.run_cell_2 g = (Kernel.Raised IndexError, g2) /\
     Kernel.w g2 = Some W /\
     shape (Kernel.n_instances g) (Kernel.n_instances g) W) /\
  (Kernel.w g = None ->
   ((Kernel.n_instances g <= 1)%nat ->
    exists g6, Kernel.run_cell_6 g = (Kernel.Done, g6) /\
      Kernel.J g6 = Some ∅) /\
   ((2 <= Kernel.n_instances g)%nat ->
    (Kernel.run_cell_6 g).1 = Kernel.Raised NameError)).
Proof.
  set (n := Kernel.n_instances g).
  pose proof (store_distance_loop (product (range 0 n) (range 0 n))
                (Kernel.set_w (zeros n n) g) (zeros n n) eq_refl) as Hsim.
  change (Kernel.data (Kernel.set_w (zeros n n) g))
    with (Kernel.data g) in Hsim.
  fold (distance_matrix_builder n (Kernel.data g)) in Hsim.
  split; [|split].
  - intros Hlen.
    destruct (distance_matrix_builder_enough_points n (Kernel.data g) Hlen)
      as (W & HW & HsW & _).
    rewrite HW in Hsim.
    destruct (max_cut_cost_formulator_spec n W (shape_readable n W HsW))
      as (m & Hm & HJ & _).
    set (g2 := Kernel.set_w W (Kernel.set_w (zeros n n) g)) in *.
    exists W, g2,
      (Kernel.set_model m
         (Kernel.set_h (linear m) (Kernel.set_J (quadratic m) g2))),
      (quadratic m).
    split; [exact Hsim|]. split; [done|].
    split; [by apply (run_cell_6_returns g2 W m)|].
    split; [done|exact HJ].
  - intros Hlen.
    rewrite (builder_raises_too_few_points n (Kernel.data g) Hlen) in Hsim.
    destruct Hsim as (W' & Hrun & Hshape).
    eexists _, W'. split; [exact Hrun|]. split; [done|].
    apply Hshape, shape_zeros.
  - intros Hw. clear Hsim. subst n.
    destruct g as [n d w0 J0 h0 m0]. cbn in Hw. subst w0.
    cbn [Kernel.n_instances]. split.
    + intros Hn. destruct n as [|[|n']]; [| |lia]; eexists; split; reflexivity.
    + intros Hn. destruct n as [|[|n']]; [lia..|]. reflexivity.
Qed.

Lemma cell_6_after_cell_2_witness :
  (exists W g2 g6 J0,
     Kernel.run_cell_2 Kernel.fresh = (Kernel.Done, g2) /\
     Kernel.w g2 = Some W /\
     Kernel.run_cell_6 g2 = (Kernel.Done, g6) /\ Kernel.J g6 = Some J0 /\
     forall i j,
       J0 !! (i, j)
       = if decide (i < j < Kernel.n_instances Kernel.fresh)%nat
         then lookup2 W i j else None) /\
  (exists g2 W,
     Kernel.run_cell_2 (Kernel.without_w 3) = (Kernel.Raised IndexError, g2) /\
     Kernel.w g2 = Some W /\ shape 3 3 W) /\
  (exists g6, Kernel.run_cell_6 (Kernel.without_w 1) = (Kernel.Done, g6) /\
     Kernel.J g6 = Some ∅) /\
  (Kernel.run_cell_6 (Kernel.without_w 2)).1 = Kernel.Raised NameError.
Proof.
  split; [|split; [|split]].
  - apply (cell_6_after_cell_2 Kernel.fresh). cbn. lia.
  - apply (cell_6_after_cell_2 (Kernel.without_w 3)). cbn. lia.
  - apply (cell_6_after_cell_2 (Kernel.without_w 1)); [reflexivity|cbn; lia].
  - apply (cell_6_after_cell_2 (Kernel.without_w 2)); [reflexivity|cbn; lia].
Defined.
